(** * rl-daaf: experiment constants, program arguments and the
      policy-evaluation job (task generation, shuffling, submission and the
      completion loop), embedded from

      - [src/daaf/periodic_reward/constants.py]
      - [src/daaf/periodic_reward/progargs.py]
      - [src/daaf/policyeval/evaljob.py]

    Python exceptions are values of [exn]; a function that may raise returns
    [exn + A].  Dictionaries are [gmap]s, lists and tuples are [list]s. *)

From Stdlib Require Import Ascii.
From stdpp Require Import gmap strings list fin_maps sorting pretty.

Open Scope string_scope.
Open Scope list_scope.
Open Scope nat_scope.

(** ** Exceptions *)

(** The payload of the two [ValueError]s raised by [CPRArgs.__post_init__]
    keeps the values that the source interpolates into the message. *)
Inductive exn : Type :=
| ValueError_unknown_mapper (cu_step_mapper : option string)
| ValueError_both_buffer_sizes (buffer_size buffer_size_multiplier : option Z)
| ValueError_sample_larger_than_population
| FrozenInstanceError (name : string)
| IndexError
| LookupError
| TaskError (msg : string).

Definition is_ValueError (e : exn) : bool :=
  match e with
  | ValueError_unknown_mapper _
  | ValueError_both_buffer_sizes _ _
  | ValueError_sample_larger_than_population => true
  | _ => false
  end.

Definition raises {A : Type} (r : exn + A) : Prop := ∃ e, r = inl e.
Definition succeeds {A : Type} (r : exn + A) : Prop := ∃ a, r = inr a.

(** ** [daaf/periodic_reward/constants.py] *)

Module constants.

Definition IDENTITY_MAPPER : string := "identity-mapper".
Definition SINGLE_STEP_MAPPER : string := "single-step-mapper".
Definition AVERAGE_REWARD_MAPPER : string := "average-reward-mapper".
Definition REWARD_ESTIMATION_LS_MAPPER : string := "reward-estimation-ls-mapper".
Definition REWARD_IMPUTATION_MAPPER : string := "reward-imputation-mapper".
Definition CUMULATIVE_REWARD_MAPPER : string := "cumulative-reward-mapper".

Definition CU_MAPPER_METHODS : list string :=
  [ IDENTITY_MAPPER;
    SINGLE_STEP_MAPPER;
    AVERAGE_REWARD_MAPPER;
    REWARD_IMPUTATION_MAPPER;
    REWARD_ESTIMATION_LS_MAPPER;
    CUMULATIVE_REWARD_MAPPER ].

Definition DEFAULT_BUFFER_SIZE_MULTIPLIER : Z := 2 ^ 8.

End constants.

(** ** [daaf/periodic_reward/progargs.py] *)

Module progargs.

(** *** Frozen dataclasses

    [@dataclasses.dataclass(frozen=True)] installs a [__setattr__] that
    raises [FrozenInstanceError] when [type(self) is cls or name in fields],
    and otherwise defers to [object.__setattr__].  A class is described by
    its decorator flag and its field names; an instance by its type and its
    attribute dictionary. *)

Section dataclasses.
Context {pyval : Type}.

Record dataclass : Type := Dataclass {
  dc_name : string;
  dc_frozen : bool;
  dc_fields : list string;
}.

Record object : Type := Object {
  ob_type : string;
  ob_dict : gmap string pyval;
}.

(** [self.name = value] on an instance, dispatched to the [__setattr__]
    of class [cls]. *)
Definition setattr (cls : dataclass) (self : object)
    (name : string) (value : pyval) : exn + object :=
  if dc_frozen cls
     && (bool_decide (ob_type self = dc_name cls)
         || bool_decide (name ∈ dc_fields cls))
  then inl (FrozenInstanceError name)
  else inr (Object (ob_type self) (<[name := value]> (ob_dict self))).
End dataclasses.

Arguments dataclass : clear implicits.
Arguments object : clear implicits.

Section args.
(** Python's [float]; the program arguments only carry such values. *)
Variable float : Type.

Inductive pyval : Type :=
| PyNone
| PyInt (z : Z)
| PyFloat (x : float)
| PyStr (s : string).

Record ControlArgs : Type := mkControlArgs {
  epsilon : float;
  alpha : float;
  gamma : float;
}.

(** [cu_step_mapper] is annotated [str]; [__post_init__] tests its truth
    value, which also admits [None], hence the [option].  The two buffer
    fields are [Optional[int]]. *)
Record CPRArgs : Type := mkCPRArgs {
  reward_period : Z;
  cu_step_mapper : option string;
  buffer_size : option Z;
  buffer_size_multiplier : option Z;
}.

Definition ControlArgs_cls : dataclass :=
  Dataclass "ControlArgs" true ["epsilon"; "alpha"; "gamma"].

Definition CPRArgs_cls : dataclass :=
  Dataclass "CPRArgs" true
    ["reward_period"; "cu_step_mapper"; "buffer_size";
     "buffer_size_multiplier"].

(** Truth value of a [str] or [None]: [None] and the empty string are
    falsy. *)
Definition truthy (s : option string) : bool :=
  match s with
  | None => false
  | Some s => negb (bool_decide (s = ""))
  end.

Definition of_optional_int (z : option Z) : pyval :=
  match z with None => PyNone | Some z => PyInt z end.

Definition of_optional_str (s : option string) : pyval :=
  match s with None => PyNone | Some s => PyStr s end.

Definition is_not_None {A : Type} (x : option A) : bool :=
  match x with None => false | Some _ => true end.

(** [x not in xs] for a tuple of strings; [None] equals no string. *)
Definition not_in (x : option string) (xs : list string) : bool :=
  match x with
  | None => true
  | Some s => negb (bool_decide (s ∈ xs))
  end.

Definition __post_init__ (self : CPRArgs) : exn + unit :=
  if truthy (cu_step_mapper self)
     && not_in (cu_step_mapper self) constants.CU_MAPPER_METHODS
  then inl (ValueError_unknown_mapper (cu_step_mapper self))
  else if is_not_None (buffer_size self)
          && is_not_None (buffer_size_multiplier self)
  then inl (ValueError_both_buffer_sizes
              (buffer_size self) (buffer_size_multiplier self))
  else inr tt.

(** The generated [__init__]: store the fields, then run
    [__post_init__]; the instance exists only if that returns. *)
Definition new_CPRArgs (reward_period : Z) (cu_step_mapper : option string)
    (buffer_size buffer_size_multiplier : option Z) : exn + CPRArgs :=
  let self :=
    mkCPRArgs reward_period cu_step_mapper buffer_size buffer_size_multiplier in
  match __post_init__ self with
  | inl e => inl e
  | inr _ => inr self
  end.

(** [ControlArgs] has no [__post_init__]. *)
Definition new_ControlArgs (epsilon alpha gamma : float) : exn + ControlArgs :=
  inr (mkControlArgs epsilon alpha gamma).

(** The instances as Python objects. *)
Definition ControlArgs_object (a : ControlArgs) : object pyval :=
  Object "ControlArgs"
    (<["epsilon" := PyFloat (epsilon a)]>
       (<["alpha" := PyFloat (alpha a)]>
          (<["gamma" := PyFloat (gamma a)]> ∅))).

Definition CPRArgs_object (a : CPRArgs) : object pyval :=
  Object "CPRArgs"
    (<["reward_period" := PyInt (reward_period a)]>
       (<["cu_step_mapper" := of_optional_str (cu_step_mapper a)]>
          (<["buffer_size" := of_optional_int (buffer_size a)]>
             (<["buffer_size_multiplier" :=
                  of_optional_int (buffer_size_multiplier a)]> ∅)))).

(** "At most one of the two buffer fields is set." *)
Definition at_most_one_buffer (bs bsm : option Z) : Prop :=
  bs = None ∨ bsm = None.

(** "The aggregation method, if any, is a member of the known set." *)
Definition mapper_is_known (m : option string) : Prop :=
  ∀ s, m = Some s → s ∈ constants.CU_MAPPER_METHODS.

(** The same, with the falsy values [None] and the empty string let
    through, as the truth test of [__post_init__] does. *)
Definition mapper_is_falsy_or_known (m : option string) : Prop :=
  ∀ s, m = Some s → s = "" ∨ s ∈ constants.CU_MAPPER_METHODS.

End args.

Arguments PyNone {float}.
Arguments PyInt {float} z.
Arguments PyStr {float} s.
Arguments PyFloat {float} x.

End progargs.

(** ** [daaf/policyeval/evaljob.py] *)

Module evaljob.

(** *** The error monad of functions that may raise *)

#[export] Instance exn_ret : MRet (sum exn) := λ A a, inr a.
#[export] Instance exn_bind : MBind (sum exn) := λ A B f r,
  match r with
  | inl e => inl e
  | inr a => f a
  end.

(** *** [random.sample]

    The standard library's [Random.sample(population, k)].  With
    [n = len(population)] it rejects [k > n], and for [n <= setsize]
    (where [setsize] is 21 plus, once [k > 5], the power of 4 next above
    [3 * k]; so always when [k = n]) it copies the population into [pool]
    and runs

    [[
        for i in range(k):
            j = randbelow(n - i)
            result[i] = pool[j]
            pool[j] = pool[n - i - 1]
    ]]

    The generator is an explicit state; [randbelow] is its only operation. *)

Class Random : Type := {
  Rng : Type;
  randbelow : Rng → nat → nat * Rng;
}.

(** [randbelow(n)] returns an integer in [[0, n)]. *)
Definition randbelow_in_range {random : Random} : Prop :=
  ∀ (rng : Rng) (n : nat), 0 < n → (randbelow rng n).1 < n.

Section sample.
Context {random : Random} {A : Type}.

(** The loop body for [i], [i + 1], ..., [i + steps - 1]; indexing a list
    out of range raises [IndexError]. *)
Fixpoint sample_loop (steps i n : nat) (rng : Rng) (pool : list A)
    : exn + (list A * Rng) :=
  match steps with
  | 0 => inr ([], rng)
  | S steps' =>
      let '(j, rng1) := randbelow rng (n - i) in
      match pool !! j, pool !! (n - i - 1) with
      | Some selected, Some moved =>
          '(result, rng2) ← sample_loop steps' (S i) n rng1 (<[j := moved]> pool);
          mret (selected :: result, rng2)
      | _, _ => inl IndexError
      end
  end.

Definition random_sample (rng : Rng) (population : list A) (k : nat)
    : exn + (list A * Rng) :=
  let n := length population in
  if bool_decide (k ≤ n)
  then sample_loop k 0 n rng population
  else inl ValueError_sample_larger_than_population.
End sample.

(** *** [numpy] arrays, as far as the job uses them *)

Record ndarray (float : Type) : Type := NdArray { tolist : list float }.
Arguments NdArray {float} tolist.
Arguments tolist {float} _.

(** *** The job *)

Section job.
(** [float] is Python's; discount factors are part of dictionary keys.
    [Level], [EnvArgs], [MDP] and [DaafConfig] belong to [daaf.task] and
    [daaf.expconfig]. *)
Context {float : Type} `{Countable float}.
Context {Level : Type} `{Countable Level}.
Context {EnvArgs MDP DaafConfig : Type}.

(** Values stored under a context key ([Mapping[str, Any]]). *)
Inductive ctxval : Type :=
| PyList (xs : list float)
| PyArray (a : ndarray float).

(** Modelled from the spec: the records of [daaf.expconfig] and
    [daaf.task] are declared outside [src/]; they carry the fields that
    [evaljob.py] reads and that the spec's data model lists. *)
Record EnvConfig : Type := mkEnvConfig {
  name : string;
  args : EnvArgs;
}.

Record LearningArgs : Type := mkLearningArgs {
  discount_factor : float;
}.

Record ExperimentConfig : Type := mkExperimentConfig {
  config_learning_args : LearningArgs;
  config_daaf : DaafConfig;
}.

Record Experiment : Type := mkExperiment {
  env_config : EnvConfig;
  learning_args : LearningArgs;
  daaf_config : DaafConfig;
}.

Record RunConfig : Type := mkRunConfig {
  num_episodes : Z;
  log_episode_frequency : Z;
  output_dir : string;
}.

Record ExperimentTask : Type := mkExperimentTask {
  exp_id : string * nat;
  run_id : nat;
  experiment : Experiment;
  run_config : RunConfig;
  context : gmap string ctxval;
}.

Record EnvSpec : Type := mkEnvSpec {
  es_name : string;
  es_level : Level;
  es_mdp : MDP;
}.

(** External collaborators: file parsing, environment construction and
    the dynamic-programming solver. *)
Class Collaborators : Type := {
  parse_environments : string → list EnvConfig;
  parse_experiment_configs : string → list ExperimentConfig;
  create_env_spec : string → EnvArgs → EnvSpec;
  dynamic_prog_estimation : MDP → float → ndarray float;
}.

(** The worker pool: [evaluate.remote], [ray.wait] and [ray.get], with
    the cluster as an explicit state. *)
Class Ray : Type := {
  ObjectRef : Type;
  Pool : Type;
  evaluate_remote : Pool → ExperimentTask → ObjectRef * Pool;
  ray_wait : Pool → list ObjectRef → list ObjectRef * list ObjectRef * Pool;
  ray_get : Pool → ObjectRef → exn + string;
}.

Context {collaborators : Collaborators} {ray : Ray} {random : Random}.

(** Modelled from the spec: [expconfig.create_experiments] is not under
    [src/].  "Forms the full cross-product of envs x experiment_configs,
    producing one Experiment per pair; no de-duplication of identical
    pairs." *)
Definition create_experiments (envs_configs : list EnvConfig)
    (experiment_configs : list ExperimentConfig) : list Experiment :=
  env ← envs_configs;
  cfg ← experiment_configs;
  [mkExperiment env (config_learning_args cfg) (config_daaf cfg)].

(** Modelled from the spec:
    [expconfig.generate_tasks_from_experiments_context_and_run_config] is
    not under [src/].  "For each Experiment, emits exactly num_runs
    ExperimentTask records, each with a distinct run id in [0, num_runs)
    and a [...] unique experiment id formed deterministically from
    id_prefix plus a monotonically increasing counter"; the counter is
    [idx]. *)
Fixpoint generate_tasks_from (idx : nat) (run_config : RunConfig)
    (experiments_and_context : list (Experiment * gmap string ctxval))
    (num_runs : nat) (task_prefix : string) : list ExperimentTask :=
  match experiments_and_context with
  | [] => []
  | (experiment, context) :: rest =>
      ((λ run_id,
          mkExperimentTask (task_prefix, idx) run_id experiment run_config context)
         <$> seq 0 num_runs)
      ++ generate_tasks_from (S idx) run_config rest num_runs task_prefix
  end.

Definition generate_tasks_from_experiments_context_and_run_config
    (run_config : RunConfig)
    (experiments_and_context : list (Experiment * gmap string ctxval))
    (num_runs : nat) (task_prefix : string) : list ExperimentTask :=
  generate_tasks_from 0 run_config experiments_and_context num_runs task_prefix.

(** Modelled from the spec: [utils.DynaProgStateValueIndex] is not under
    [src/].  "build_index deduplicates specs by BaselineKey before
    computing: for each distinct key, if a persisted value exists at the
    configured storage location for that exact key, load it; otherwise
    compute it via the [...] solver applied to the key's mdp, then
    persist it."  The contents of the storage location [path] are a map
    from keys to vectors. *)
Abbreviation BaselineKey := (string * Level * float)%type.

Fixpoint build_entries (specs : list (string * Level * float * MDP))
    (index storage : gmap BaselineKey (ndarray float))
    : gmap BaselineKey (ndarray float) * gmap BaselineKey (ndarray float) :=
  match specs with
  | [] => (index, storage)
  | (name, level, gamma, mdp) :: rest =>
      let key := (name, level, gamma) in
      match index !! key with
      | Some _ => build_entries rest index storage
      | None =>
          match storage !! key with
          | Some values => build_entries rest (<[key := values]> index) storage
          | None =>
              let values := dynamic_prog_estimation mdp gamma in
              build_entries rest
                (<[key := values]> index) (<[key := values]> storage)
          end
      end
  end.

Definition build_index (specs : list (string * Level * float * MDP))
    (path : gmap BaselineKey (ndarray float))
    : gmap BaselineKey (ndarray float) * gmap BaselineKey (ndarray float) :=
  build_entries specs ∅ path.

(** "get fails with a LookupError if invoked with a key not present in
    the index." *)
Definition get (index : gmap BaselineKey (ndarray float))
    (name : string) (level : Level) (gamma : float) : exn + ndarray float :=
  match index !! (name, level, gamma) with
  | Some values => inr values
  | None => inl LookupError
  end.

(** [add_experiment_context], first loop. *)
Definition dyna_prog_spec (experiment : Experiment)
    : string * Level * float * MDP :=
  let env_spec :=
    create_env_spec (name (env_config experiment)) (args (env_config experiment)) in
  (es_name env_spec,
   es_level env_spec,
   discount_factor (learning_args experiment),
   es_mdp env_spec).

(** [add_experiment_context], second loop, over
    [zip(experiments, dyna_prog_specs)]. *)
Fixpoint attach_context (dyna_prog_index : gmap BaselineKey (ndarray float))
    (pairs : list (Experiment * (string * Level * float * MDP)))
    : exn + list (Experiment * gmap string ctxval) :=
  match pairs with
  | [] => inr []
  | (experiment, (name, level, gamma, _)) :: rest =>
      values ← get dyna_prog_index name level gamma;
      experiments_and_context ← attach_context dyna_prog_index rest;
      mret ((experiment,
             {[ "dyna_prog_state_values" := PyList (tolist values) ]})
            :: experiments_and_context)
  end.

(** [assets_dir] stands for the contents of that directory; the second
    component of the result is its contents afterwards. *)
Definition add_experiment_context (experiments : list Experiment)
    (assets_dir : gmap BaselineKey (ndarray float))
    : exn + (list (Experiment * gmap string ctxval)
             * gmap BaselineKey (ndarray float)) :=
  let dyna_prog_specs := dyna_prog_spec <$> experiments in
  let '(dyna_prog_index, assets_dir') := build_index dyna_prog_specs assets_dir in
  experiments_and_context ←
    attach_context dyna_prog_index (zip experiments dyna_prog_specs);
  mret (experiments_and_context, assets_dir').

(** What [logging.info] is called with. *)
Inductive LogRecord : Type :=
| Parsed (n_configs n_envs n_tasks : nat)
| Completed (finished_task : ObjectRef) (task_id : string) (n_left out_of : nat).

(** The submission loop of [create_tasks].  The third component lists the
    arguments of the calls to [evaluate.remote], oldest first. *)
Fixpoint submit_all (pool : Pool) (experiment_tasks : list ExperimentTask)
    : list (ExperimentTask * ObjectRef) * Pool * list ExperimentTask :=
  match experiment_tasks with
  | [] => ([], pool, [])
  | exp_task :: rest =>
      let '(future, pool1) := evaluate_remote pool exp_task in
      let '(futures, pool2, calls) := submit_all pool1 rest in
      ((exp_task, future) :: futures, pool2, exp_task :: calls)
  end.

(** The state that [create_tasks] reads and changes. *)
Record World : Type := mkWorld {
  w_assets : gmap BaselineKey (ndarray float);
  w_rng : Rng;
  w_pool : Pool;
}.

Record Created : Type := mkCreated {
  tasks_futures : list (ExperimentTask * ObjectRef);
  submitted : list ExperimentTask;
  generated : list ExperimentTask;
  created_log : list LogRecord;
  created_world : World;
}.

(** [generated] is [experiment_tasks] before the shuffle and [submitted]
    the calls to [evaluate.remote]; the source returns [tasks_futures].
    The directory named by [assets_dir] is read and written through
    [w_assets]. *)
Definition create_tasks (envs_path config_path : string) (num_runs : nat)
    (num_episodes : Z) (output_dir task_prefix : string)
    (log_episode_frequency : Z) (w : World) : exn + Created :=
  let envs_configs := parse_environments envs_path in
  let experiment_configs := parse_experiment_configs config_path in
  let experiments := create_experiments envs_configs experiment_configs in
  '(experiments_and_context, assets') ←
    add_experiment_context experiments (w_assets w);
  let experiment_tasks0 :=
    generate_tasks_from_experiments_context_and_run_config
      (mkRunConfig num_episodes log_episode_frequency output_dir)
      experiments_and_context num_runs task_prefix in
  '(experiment_tasks, rng') ←
    random_sample (w_rng w) experiment_tasks0 (length experiment_tasks0);
  let record :=
    Parsed (length experiment_configs) (length envs_configs)
      (length experiment_tasks) in
  let '(futures, pool', calls) := submit_all (w_pool w) experiment_tasks in
  mret (mkCreated futures calls experiment_tasks0 [record]
          (mkWorld assets' rng' pool')).

(** *** The completion loop of [main] *)

Inductive outcome : Type :=
| Done
| Raised (e : exn)
| OutOfFuel.

(** [for finished_task in finished_tasks: logging.info(...)]; [ray.get]
    raises when the task raised, which ends [main]. *)
Fixpoint log_finished (pool : Pool) (finished_tasks : list ObjectRef)
    (n_left out_of : nat) : list LogRecord * option exn :=
  match finished_tasks with
  | [] => ([], None)
  | finished_task :: rest =>
      match ray_get pool finished_task with
      | inl e => ([], Some e)
      | inr task_id =>
          let '(records, err) := log_finished pool rest n_left out_of in
          (Completed finished_task task_id n_left out_of :: records, err)
      end
  end.

(** [while True: ...]; one unit of [fuel] per iteration.  [n_futures] is
    [len(futures)]. *)
Fixpoint wait_loop (fuel : nat) (pool : Pool) (unfinished_tasks : list ObjectRef)
    (n_futures : nat) : list LogRecord * outcome :=
  match fuel with
  | 0 => ([], OutOfFuel)
  | S fuel' =>
      let '(finished_tasks, unfinished_tasks', pool') :=
        ray_wait pool unfinished_tasks in
      let '(records, err) :=
        log_finished pool' finished_tasks (length unfinished_tasks') n_futures in
      match err with
      | Some e => (records, Raised e)
      | None =>
          if bool_decide (length unfinished_tasks' = 0)
          then (records, Done)
          else
            let '(records', o) :=
              wait_loop fuel' pool' unfinished_tasks' n_futures in
            (records ++ records', o)
      end
  end.

(** [main], from [create_tasks] on; [ray.init] and the three start-up
    log lines are left out. *)
Definition main (fuel : nat) (envs_path config_path : string) (num_runs : nat)
    (num_episodes : Z) (output_dir task_prefix : string)
    (log_episode_frequency : Z) (w : World) : list LogRecord * outcome :=
  match create_tasks envs_path config_path num_runs num_episodes
          output_dir task_prefix log_episode_frequency w with
  | inl e => ([], Raised e)
  | inr created =>
      let futures := (tasks_futures created).*2 in
      let unfinished_tasks := futures in
      let '(records, o) :=
        wait_loop fuel (w_pool (created_world created)) unfinished_tasks
          (length futures) in
      (created_log created ++ records, o)
  end.

(** Projections of the log. *)
Definition notified (r : LogRecord) : option ObjectRef :=
  match r with
  | Completed finished_task _ _ _ => Some finished_task
  | Parsed _ _ _ => None
  end.

Definition remaining (r : LogRecord) : option nat :=
  match r with
  | Completed _ _ n_left _ => Some n_left
  | Parsed _ _ _ => None
  end.

(** The contract of [ray.wait]: it splits its argument into the finished
    and the outstanding handles, and on a non-empty argument at least one
    handle is finished. *)
Definition wait_partitions : Prop :=
  ∀ (pool : Pool) (refs : list ObjectRef),
    refs ≡ₚ (ray_wait pool refs).1.1 ++ (ray_wait pool refs).1.2.

Definition wait_returns_finished : Prop :=
  ∀ (pool : Pool) (refs : list ObjectRef),
    refs ≠ [] → (ray_wait pool refs).1.1 ≠ [].

(** [ray.wait]'s default [num_returns=1]: one finished handle per call. *)
Definition wait_returns_one : Prop :=
  ∀ (pool : Pool) (refs : list ObjectRef),
    length (ray_wait pool refs).1.1 ≤ 1.

(** The handles notified and the remaining counts reported, in log order. *)
Definition notified_handles (records : list LogRecord) : list ObjectRef :=
  omap notified records.

Definition remaining_counts (records : list LogRecord) : list nat :=
  omap remaining records.

(** [submissions pool pairs pool']: starting from [pool], one call of
    [evaluate.remote] per pair, in list order, each returning the handle
    paired with its task, ends in [pool']. *)
Inductive submissions : Pool → list (ExperimentTask * ObjectRef) → Pool → Prop :=
| submissions_nil pool : submissions pool [] pool
| submissions_cons pool exp_task future pool1 rest pool2 :
    evaluate_remote pool exp_task = (future, pool1) →
    submissions pool1 rest pool2 →
    submissions pool ((exp_task, future) :: rest) pool2.

(** The key under which an experiment's baseline is indexed. *)
Definition baseline_key (experiment : Experiment) : BaselineKey :=
  (dyna_prog_spec experiment).1.

(** What [add_experiment_context] attaches to an experiment, given the
    index: the indexed array of the experiment's key, as a list. *)
Definition carries_baseline (dyna_prog_index : gmap BaselineKey (ndarray float))
    (pair : Experiment * gmap string ctxval) : Prop :=
  ∃ values,
    dyna_prog_index !! baseline_key pair.1 = Some values
    ∧ pair.2 = {[ "dyna_prog_state_values" := PyList (tolist values) ]}.

(** Every task finishes without raising: its result can be fetched. *)
Definition all_finish (futures : list ObjectRef) : Prop :=
  ∀ (pool : Pool) (future : ObjectRef),
    future ∈ futures → succeeds (ray_get pool future).

End job.

End evaljob.

(** ** A small batch

    Two environments, three configurations (two of them with the same
    discount factor) and a pool that hands out consecutive handles.
    Discount factors and state values are written as decimal strings. *)

Module example.
Import evaljob.

Definition envs : list (@EnvConfig unit) :=
  [mkEnvConfig "envA" tt; mkEnvConfig "envB" tt].

Definition configs : list (@ExperimentConfig string nat) :=
  [mkExperimentConfig (mkLearningArgs "0.9") 1;
   mkExperimentConfig (mkLearningArgs "0.9") 2;
   mkExperimentConfig (mkLearningArgs "0.99") 3].

Definition collaborators : @Collaborators string nat unit string nat := {|
  parse_environments _ := envs;
  parse_experiment_configs _ := configs;
  create_env_spec name _ := mkEnvSpec name 1 ("mdp of " +:+ name);
  dynamic_prog_estimation mdp gamma := NdArray [gamma; mdp];
|}.

(** [ray.wait] with [num_returns=1]: the first outstanding handle is
    reported finished. *)
Definition one_by_one : @Ray string unit nat := {|
  ObjectRef := nat;
  Pool := nat;
  evaluate_remote pool _ := (pool, S pool);
  ray_wait pool refs :=
    match refs with
    | [] => ([], [], pool)
    | ref :: rest => ([ref], rest, pool)
    end;
  ray_get _ ref := inr "task";
|}.

(** The same pool, except that the task behind handle 5 raised. *)
Definition one_fails : @Ray string unit nat := {|
  ObjectRef := nat;
  Pool := nat;
  evaluate_remote pool _ := (pool, S pool);
  ray_wait pool refs :=
    match refs with
    | [] => ([], [], pool)
    | ref :: rest => ([ref], rest, pool)
    end;
  ray_get _ ref :=
    if bool_decide (ref = 5) then inl (TaskError "run failed") else inr "task";
|}.

(** A generator that reads its draws from a tape. *)
Definition tape : Random := {|
  Rng := list nat;
  randbelow rng n :=
    match rng with
    | [] => (0, [])
    | x :: rest => (x `mod` n, rest)
    end;
|}.

Definition world : @World string _ _ nat _ _ unit nat one_by_one tape :=
  @mkWorld string _ _ nat _ _ unit nat one_by_one tape ∅ [5; 3; 8; 1] 0.

(** The spec's scenario: 2 environments x 3 configurations x 4 runs. *)
Definition batch :=
  @create_tasks string _ _ nat _ _ unit string nat collaborators one_by_one tape
    "envs.json" "configs.csv" 4 100 "out" "run" 10 world.

Definition experiments :=
  @create_experiments string unit nat
    (@parse_environments _ _ _ _ _ collaborators "envs.json")
    (@parse_experiment_configs _ _ _ _ _ collaborators "configs.csv").

Definition index :=
  (@build_index string _ _ nat _ _ unit string nat collaborators
     (@dyna_prog_spec string nat unit string nat collaborators <$> experiments)
     (w_assets world)).1.

End example.


(** ** [evaljob.py]: the remote function

    [evaluate] runs on a worker: it builds the task id, logs it, hands the
    task to [evaluation.run_fn] and returns the id.  [run_fn] belongs to
    [daaf.policyeval.evaluation]; [format_exp_id] is how an experiment id
    prints inside an f-string. *)

Module worker.
Import evaljob.

Inductive WorkerLog : Type :=
| Starting (task_id : string)
| Finished (task_id : string).

Section evaluate.
Context {float EnvArgs DaafConfig : Type}.
Variable format_exp_id : string * nat → string.
Variable run_fn : @ExperimentTask float EnvArgs DaafConfig → exn + unit.

(** [f"{experiment_task.exp_id}/{experiment_task.run_id}"] *)
Definition task_id (experiment_task : @ExperimentTask float EnvArgs DaafConfig)
    : string :=
  format_exp_id (exp_id experiment_task)
  +:+ "/" +:+ pretty (run_id experiment_task).

Definition evaluate (experiment_task : @ExperimentTask float EnvArgs DaafConfig)
    : list WorkerLog * (exn + string) :=
  let task_id := task_id experiment_task in
  match run_fn experiment_task with
  | inl e => ([Starting task_id], inl e)
  | inr _ => ([Starting task_id; Finished task_id], inr task_id)
  end.
End evaluate.

(** Strings without the separator of task ids. *)
Fixpoint no_slash (s : string) : Prop :=
  match s with
  | EmptyString => True
  | String a s => a ≠ "/"%char ∧ no_slash s
  end.

End worker.

(** ** [evaljob.py]: what a logged completion looks like *)

Module completion.
Import evaljob.

Section records.
Context {float EnvArgs DaafConfig : Type}.
Context {ray : @Ray float EnvArgs DaafConfig}.

(** A record as [main] logs it for a handle among [refs]: the id that
    [ray.get] returned for the handle, a count below the number of handles,
    and the total. *)
Definition well_formed_record (refs : list ObjectRef) (n_futures : nat)
    (record : LogRecord) : Prop :=
  ∃ finished_task task_id n_left pool,
    record = Completed finished_task task_id n_left n_futures
    ∧ finished_task ∈ refs
    ∧ ray_get pool finished_task = inr task_id
    ∧ n_left < length refs.
End records.

End completion.

(** * Properties *)

Import constants progargs evaljob.

(** ** Program arguments *)

Lemma truthy_spec (m : option string) :
  truthy m = true ↔ ∃ s, m = Some s ∧ s ≠ "".
Proof.
  destruct m as [s|]; simpl.
  - rewrite negb_true_iff, bool_decide_eq_false. split.
    + intros Hs. by exists s.
    + by intros (? & [= <-] & Hs).
  - split; [done | by intros (? & [=] & _)].
Qed.

Lemma not_in_spec (s : string) (xs : list string) :
  not_in (Some s) xs = true ↔ s ∉ xs.
Proof. simpl. by rewrite negb_true_iff, bool_decide_eq_false. Qed.

Lemma both_set_spec (bs bsm : option Z) :
  is_not_None bs && is_not_None bsm = false ↔ at_most_one_buffer bs bsm.
Proof.
  unfold at_most_one_buffer.
  destruct bs, bsm; simpl; split; try done; try (intros _; by (left + right)).
  by intros [? | ?].
Qed.

Lemma mapper_check_spec (m : option string) :
  truthy m && not_in m CU_MAPPER_METHODS = false ↔ mapper_is_falsy_or_known m.
Proof.
  unfold mapper_is_falsy_or_known. destruct m as [s|]; simpl.
  - rewrite andb_false_iff, !negb_false_iff, !bool_decide_eq_true.
    split; [intros Hs ? [= <-]; done | intros Hs; by apply Hs].
  - split; [intros _ ? [=] | done].
Qed.

(** What the constructor returns, case by case. *)
Lemma new_CPRArgs_cases (rp : Z) (m : option string) (bs bsm : option Z) :
  new_CPRArgs rp m bs bsm =
    if truthy m && not_in m CU_MAPPER_METHODS
    then inl (ValueError_unknown_mapper m)
    else if is_not_None bs && is_not_None bsm
    then inl (ValueError_both_buffer_sizes bs bsm)
    else inr (mkCPRArgs rp m bs bsm).
Proof.
  unfold new_CPRArgs, __post_init__; simpl.
  destruct (truthy m && _); [done |].
  by destruct (is_not_None bs && _).
Qed.

Lemma empty_not_known : "" ∉ CU_MAPPER_METHODS.
Proof. by apply (bool_decide_unpack _). Qed.

(** C1, as stated: the claim reads "construction succeeds iff the method, if
    any, is in [CU_MAPPER_METHODS] and at most one buffer field is set"; it
    fails for the empty string, which is not in the set and still
    constructs. *)
Lemma new_CPRArgs_iff_known_fails_on_empty :
  succeeds (new_CPRArgs 1 (Some "") None None)
  ∧ at_most_one_buffer None None
  ∧ ¬ mapper_is_known (Some "")
  ∧ ¬ (∀ rp m bs bsm,
         succeeds (new_CPRArgs rp m bs bsm)
         ↔ mapper_is_known m ∧ at_most_one_buffer bs bsm).
Proof.
  assert (Hs : succeeds (new_CPRArgs 1 (Some "") None None)) by (by eexists).
  assert (Hn : ¬ mapper_is_known (Some "")).
  { intros Hk. by apply empty_not_known, Hk. }
  split_and!; [done | by left | done |].
  intros Hiff. apply Hn. by apply (Hiff 1%Z (Some "") None None).
Qed.

(** C1, amended: construction succeeds iff [cu_step_mapper] is falsy ([None]
    or the empty string) or a member of [CU_MAPPER_METHODS], and at most one
    of [buffer_size], [buffer_size_multiplier] is set; otherwise it raises a
    [ValueError] and returns no instance.  ["bogus-mapper"] raises,
    ["average-reward-mapper"] succeeds. *)
Theorem new_CPRArgs_succeeds_iff (rp : Z) (m : option string) (bs bsm : option Z) :
  (succeeds (new_CPRArgs rp m bs bsm)
   ↔ mapper_is_falsy_or_known m ∧ at_most_one_buffer bs bsm)
  ∧ (succeeds (new_CPRArgs rp m bs bsm)
     ∨ ∃ e, new_CPRArgs rp m bs bsm = inl e ∧ is_ValueError e = true)
  ∧ new_CPRArgs rp (Some "bogus-mapper") bs bsm
    = inl (ValueError_unknown_mapper (Some "bogus-mapper"))
  ∧ new_CPRArgs rp (Some "average-reward-mapper") None None
    = inr (mkCPRArgs rp (Some "average-reward-mapper") None None).
Proof.
  split_and!; [| | done | done].
  - rewrite new_CPRArgs_cases, <- mapper_check_spec, <- both_set_spec.
    unfold succeeds.
    destruct (truthy m && _).
    { split; [by intros [? ?] | by intros [? _]]. }
    destruct (is_not_None bs && _).
    { split; [by intros [? ?] | by intros [_ ?]]. }
    split; [done | intros _; by eexists].
  - rewrite new_CPRArgs_cases. unfold succeeds.
    destruct (truthy m && _); [right; by eexists |].
    destruct (is_not_None bs && _); [right; by eexists | left; by eexists].
Qed.

(** C8, as stated: "any aggregation method name outside this set raises";
    the empty string is outside the set and constructs. *)
Lemma unknown_mapper_raises_fails_on_empty :
  ("" ∉ CU_MAPPER_METHODS)
  ∧ new_CPRArgs 1 (Some "") None None = inr (mkCPRArgs 1 (Some "") None None)
  ∧ ¬ (∀ rp s bs bsm,
         s ∉ CU_MAPPER_METHODS → raises (new_CPRArgs rp (Some s) bs bsm)).
Proof.
  split_and!; [apply empty_not_known | done |].
  intros Hall.
  destruct (Hall 1%Z "" None None empty_not_known) as [e He]. discriminate He.
Qed.

(** C8, amended: [CU_MAPPER_METHODS] holds exactly the six named strategies
    (identity, single-step, average-reward, reward-imputation,
    least-squares reward-estimation, cumulative-reward), and constructing
    with any non-empty name outside the set raises the unknown-mapper
    [ValueError]. *)
Theorem CU_MAPPER_METHODS_six_and_unknown_raises :
  CU_MAPPER_METHODS
  = ["identity-mapper"; "single-step-mapper"; "average-reward-mapper";
     "reward-imputation-mapper"; "reward-estimation-ls-mapper";
     "cumulative-reward-mapper"]
  ∧ length CU_MAPPER_METHODS = 6
  ∧ NoDup CU_MAPPER_METHODS
  ∧ (∀ rp s bs bsm,
       s ≠ "" → s ∉ CU_MAPPER_METHODS →
       new_CPRArgs rp (Some s) bs bsm = inl (ValueError_unknown_mapper (Some s))).
Proof.
  split_and!; [done | done | by apply (bool_decide_unpack _) |].
  intros rp s bs bsm Hne Hout. rewrite new_CPRArgs_cases.
  assert (truthy (Some s) && not_in (Some s) CU_MAPPER_METHODS = true) as ->; [| done].
  apply andb_true_iff. split; [apply truthy_spec; eauto | by apply not_in_spec].
Qed.

Lemma CU_MAPPER_METHODS_six_and_unknown_raises_witness :
  new_CPRArgs 4 (Some "bogus-mapper") (Some 10%Z) None
  = inl (ValueError_unknown_mapper (Some "bogus-mapper")).
Proof.
  apply CU_MAPPER_METHODS_six_and_unknown_raises.
  - done.
  - by apply (bool_decide_unpack _).
Defined.

(** C9: constructing [CPRArgs] with the empty string as [cu_step_mapper]
    succeeds although the empty string is not in [CU_MAPPER_METHODS]: the
    membership test is skipped whenever [cu_step_mapper] is falsy, so some
    configuration with a method outside the set is constructed. *)
Theorem empty_mapper_constructs :
  (∀ rp, new_CPRArgs rp (Some "") None None = inr (mkCPRArgs rp (Some "") None None))
  ∧ ("" ∉ CU_MAPPER_METHODS)
  ∧ (∀ rp m bs bsm,
       truthy m = false →
       new_CPRArgs rp m bs bsm
       = if is_not_None bs && is_not_None bsm
         then inl (ValueError_both_buffer_sizes bs bsm)
         else inr (mkCPRArgs rp m bs bsm))
  ∧ (∃ rp s bs bsm a,
       (s ∉ CU_MAPPER_METHODS)
       ∧ new_CPRArgs rp (Some s) bs bsm = inr a
       ∧ cu_step_mapper a = Some s).
Proof.
  split_and!.
  - done.
  - apply empty_not_known.
  - intros rp m bs bsm Hm. by rewrite new_CPRArgs_cases, Hm.
  - exists 1%Z, "", None, None, (mkCPRArgs 1 (Some "") None None).
    split_and!; [apply empty_not_known | done | done].
Qed.

Lemma empty_mapper_constructs_witness :
  new_CPRArgs 7 None (Some 3%Z) None = inr (mkCPRArgs 7 None (Some 3%Z) None).
Proof.
  exact (proj1 (proj2 (proj2 empty_mapper_constructs)) 7%Z None (Some 3%Z) None eq_refl).
Defined.

(** C10: [ControlArgs] and [CPRArgs] are frozen dataclasses: on any
    instance, assigning any value to any attribute, a field or not, raises
    [FrozenInstanceError] and yields no changed instance. *)
Theorem frozen_dataclasses_reject_assignment (float : Type) :
  dc_frozen ControlArgs_cls = true
  ∧ dc_frozen CPRArgs_cls = true
  ∧ (∀ (a : ControlArgs float) name (value : pyval float),
       setattr ControlArgs_cls (ControlArgs_object float a) name value
       = inl (FrozenInstanceError name))
  ∧ (∀ (a : CPRArgs) name (value : pyval float),
       setattr CPRArgs_cls (CPRArgs_object float a) name value
       = inl (FrozenInstanceError name)).
Proof. by split_and!. Qed.

(** ** The shuffle *)

Section sample_facts.
Context {random : Random} {A : Type}.
Implicit Types (pool population result : list A) (rng : Rng).

(** Writing [y] over the entry [x] at [j] and dropping a trailing [y]
    removes one [x]. *)
Lemma overwrite_from_end pool j (x y : A) :
  pool !! j = Some x → pool ++ [y] ≡ₚ x :: <[j := y]> pool.
Proof.
  revert j. induction pool as [|a pool IH]; intros [|j] Hj; simplify_eq/=.
  - by rewrite <- Permutation_cons_append.
  - rewrite (IH _ Hj). apply Permutation_swap.
Qed.

(** One iteration: the live prefix of the pool loses the selected
    element and nothing else. *)
Lemma live_prefix_step pool m j (x y : A) :
  j < S m → pool !! j = Some x → pool !! m = Some y →
  take (S m) pool ≡ₚ x :: take m (<[j := y]> pool).
Proof.
  intros Hj Hx Hy. rewrite (take_S_r _ _ _ Hy).
  destruct (decide (j = m)) as [-> | Hne].
  - rewrite take_insert_ge by lia. simplify_eq.
    by rewrite <- Permutation_cons_append.
  - rewrite take_insert_lt by lia.
    apply overwrite_from_end. rewrite lookup_take_lt by lia. done.
Qed.

Lemma sample_loop_selects_live_prefix (Hrand : randbelow_in_range)
    steps i n rng pool :
  i + steps = n → n ≤ length pool →
  ∃ result rng',
    sample_loop steps i n rng pool = inr (result, rng')
    ∧ result ≡ₚ take steps pool.
Proof.
  revert i rng pool.
  induction steps as [|steps IH]; intros i rng pool Hn Hlen; simpl.
  - exists [], rng. by rewrite take_0.
  - pose proof (Hrand rng (n - i) ltac:(lia)) as Hj.
    destruct (randbelow rng (n - i)) as [j rng1]; simpl in Hj.
    replace (n - i - 1) with steps by lia.
    destruct (lookup_lt_is_Some_2 pool j ltac:(lia)) as [x Hx].
    destruct (lookup_lt_is_Some_2 pool steps ltac:(lia)) as [y Hy].
    rewrite Hx, Hy.
    destruct (IH (S i) rng1 (<[j := y]> pool)) as (result & rng2 & -> & Hperm).
    { lia. }
    { by rewrite length_insert. }
    exists (x :: result), rng2. split; [done |].
    rewrite Hperm. symmetry. apply live_prefix_step; [lia | done | done].
Qed.

Lemma random_sample_all (Hrand : randbelow_in_range) rng population :
  ∃ result rng',
    random_sample rng population (length population) = inr (result, rng')
    ∧ result ≡ₚ population.
Proof.
  unfold random_sample. rewrite bool_decide_eq_true_2 by done.
  destruct (sample_loop_selects_live_prefix Hrand (length population) 0
              (length population) rng population)
    as (result & rng' & -> & Hperm); [done | done |].
  exists result, rng'. split; [done |]. by rewrite Hperm, firstn_all.
Qed.
End sample_facts.

(** ** Task generation *)

Section job_facts.
Context {float : Type} `{Countable float}.
Context {Level : Type} `{Countable Level}.
Context {EnvArgs MDP DaafConfig : Type}.
Context {collaborators : @Collaborators float Level EnvArgs MDP DaafConfig}.
Context {ray : @Ray float EnvArgs DaafConfig}.
Context {random : Random}.

Abbreviation Experiment := (@Experiment float EnvArgs DaafConfig).
Abbreviation ExperimentTask := (@ExperimentTask float EnvArgs DaafConfig).
Abbreviation BaselineKey := (string * Level * float)%type.
Abbreviation Index := (gmap BaselineKey (ndarray float)).

Lemma create_experiments_length
    (envs_configs : list (@EnvConfig EnvArgs))
    (experiment_configs : list (@ExperimentConfig float DaafConfig)) :
  length (create_experiments envs_configs experiment_configs)
  = length envs_configs * length experiment_configs.
Proof.
  unfold create_experiments.
  induction envs_configs as [|env envs IH]; [done |].
  rewrite bind_cons, length_app, IH. simpl. f_equal.
  clear. induction experiment_configs as [|cfg cfgs IH]; [done |].
  rewrite bind_cons. simpl. by rewrite IH.
Qed.

Lemma generate_tasks_from_length idx run_config
    (experiments_and_context : list (Experiment * gmap string ctxval))
    num_runs task_prefix :
  length (generate_tasks_from idx run_config experiments_and_context
            num_runs task_prefix)
  = length experiments_and_context * num_runs.
Proof.
  revert idx.
  induction experiments_and_context as [|[experiment context] rest IH];
    intros idx; simpl; [done |].
  by rewrite length_app, length_fmap, length_seq, IH.
Qed.

(** Tasks carry the experiment and the context they were generated from. *)
Lemma generate_tasks_from_origin idx run_config
    (experiments_and_context : list (Experiment * gmap string ctxval))
    num_runs task_prefix (task : ExperimentTask) :
  task ∈ generate_tasks_from idx run_config experiments_and_context
           num_runs task_prefix →
  (experiment task, context task) ∈ experiments_and_context.
Proof.
  revert idx.
  induction experiments_and_context as [|[experiment context] rest IH];
    intros idx; simpl.
  - by intros ?%elem_of_nil.
  - rewrite elem_of_app, list_elem_of_fmap.
    intros [(run_id & -> & _) | Hin]; simpl.
    + apply list_elem_of_here.
    + apply list_elem_of_further. by eapply IH.
Qed.

(** *** The baseline index *)

Lemma build_entries_covers (specs : list (string * Level * float * MDP))
    (index storage : Index) :
  (∀ key, is_Some (index !! key) →
     (build_entries specs index storage).1 !! key = index !! key)
  ∧ (∀ spec, spec ∈ specs →
       is_Some ((build_entries specs index storage).1 !! spec.1)).
Proof.
  revert index storage.
  induction specs as [|[[[name level] gamma] mdp] rest IH];
    intros index storage.
  - split; [done | by intros ? ?%elem_of_nil].
  - assert (Hadd : ∀ values storage',
              index !! (name, level, gamma) = None →
              (∀ key, is_Some (index !! key) →
                 (build_entries rest (<[(name, level, gamma) := values]> index)
                    storage').1 !! key = index !! key)
              ∧ (∀ spec, spec ∈ (name, level, gamma, mdp) :: rest →
                   is_Some ((build_entries rest
                               (<[(name, level, gamma) := values]> index)
                               storage').1 !! spec.1))).
    { intros values storage' Hfresh.
      destruct (IH (<[(name, level, gamma) := values]> index) storage')
        as [Hkeep Hcover].
      assert (Hother : ∀ key, is_Some (index !! key) →
                (<[(name, level, gamma) := values]> index) !! key = index !! key).
      { intros key [v Hv]. apply lookup_insert_ne. intros <-.
        congruence. }
      split.
      - intros key Hkey. rewrite Hkeep; [by apply Hother |].
        by rewrite Hother.
      - intros spec [-> | Hin]%elem_of_cons; [| by apply Hcover].
        cbn [fst]. rewrite Hkeep; by rewrite lookup_insert_eq. }
    cbn [build_entries].
    destruct (index !! (name, level, gamma)) as [values|] eqn:Hindex.
    + destruct (IH index storage) as [Hkeep Hcover].
      split; [done |].
      intros spec [-> | Hin]%elem_of_cons; [| by apply Hcover].
      cbn [fst]. rewrite Hkeep; by rewrite Hindex.
    + destruct (storage !! (name, level, gamma)) as [values|]; by apply Hadd.
Qed.

Lemma build_index_covers (specs : list (string * Level * float * MDP))
    (path : Index) spec :
  spec ∈ specs → is_Some ((build_index specs path).1 !! spec.1).
Proof. apply build_entries_covers. Qed.
(** *** Attaching the baseline *)

Lemma attach_context_spec (dyna_prog_index : Index) (experiments : list Experiment) :
  (∀ experiment, experiment ∈ experiments →
     is_Some (dyna_prog_index !! baseline_key experiment)) →
  ∃ experiments_and_context,
    attach_context dyna_prog_index
      (zip experiments (dyna_prog_spec <$> experiments))
    = inr experiments_and_context
    ∧ experiments_and_context.*1 = experiments
    ∧ Forall (carries_baseline dyna_prog_index) experiments_and_context.
Proof.
  induction experiments as [|experiment rest IH]; intros Hcover.
  - exists []. by split_and!.
  - destruct IH as (out & Hout & Hfst & Hall).
    { intros e He. apply Hcover. by apply list_elem_of_further. }
    destruct (Hcover experiment (list_elem_of_here _ _)) as [values Hvalues].
    exists ((experiment,
             {[ "dyna_prog_state_values" := PyList (tolist values) ]}) :: out).
    split_and!.
    + cbn [fmap list_fmap zip_with attach_context dyna_prog_spec].
      unfold get. unfold baseline_key, dyna_prog_spec in Hvalues.
      cbn [fst] in Hvalues. rewrite Hvalues. cbn [mbind exn_bind].
      fold (@dyna_prog_spec float Level EnvArgs MDP DaafConfig collaborators).
      change (list_fmap _ _ dyna_prog_spec rest) with (dyna_prog_spec <$> rest).
      by rewrite Hout.
    + cbn. by rewrite Hfst.
    + constructor; [by exists values | done].
Qed.

Lemma add_experiment_context_spec (experiments : list Experiment)
    (assets_dir : Index) :
  ∃ experiments_and_context,
    add_experiment_context experiments assets_dir
    = inr (experiments_and_context,
           (build_index (dyna_prog_spec <$> experiments) assets_dir).2)
    ∧ experiments_and_context.*1 = experiments
    ∧ Forall
        (carries_baseline
           (build_index (dyna_prog_spec <$> experiments) assets_dir).1)
        experiments_and_context.
Proof.
  unfold add_experiment_context.
  destruct (build_index (dyna_prog_spec <$> experiments) assets_dir)
    as [dyna_prog_index assets_dir'] eqn:Hbuild.
  destruct (attach_context_spec dyna_prog_index experiments)
    as (out & Hout & Hfst & Hall).
  { intros experiment Hin.
    pose proof (build_index_covers (dyna_prog_spec <$> experiments) assets_dir
                  (dyna_prog_spec experiment)) as Hcover.
    rewrite Hbuild in Hcover. apply Hcover.
    apply list_elem_of_fmap. eauto. }
  exists out. rewrite Hout. by split_and!.
Qed.

(** *** Submission *)

Lemma submit_all_spec (pool : Pool) (experiment_tasks : list ExperimentTask) :
  (submit_all pool experiment_tasks).1.1.*1 = experiment_tasks
  ∧ (submit_all pool experiment_tasks).2 = experiment_tasks
  ∧ submissions pool (submit_all pool experiment_tasks).1.1
      (submit_all pool experiment_tasks).1.2.
Proof.
  revert pool.
  induction experiment_tasks as [|exp_task rest IH]; intros pool; simpl.
  - split_and!; [done | done | constructor].
  - destruct (evaluate_remote pool exp_task) as [future pool1] eqn:Hremote.
    destruct (IH pool1) as (Hfst & Hcalls & Hsub).
    destruct (submit_all pool1 rest) as [[futures pool2] calls]; simpl in *.
    split_and!; [by f_equal | by f_equal |].
    by econstructor.
Qed.

(** *** [create_tasks] as a whole *)

Lemma create_tasks_spec (Hrand : randbelow_in_range)
    envs_path config_path num_runs num_episodes output_dir task_prefix
    log_episode_frequency (w : World) :
  let experiments :=
    create_experiments (parse_environments envs_path)
      (parse_experiment_configs config_path) in
  let dyna_prog_index :=
    (build_index (dyna_prog_spec <$> experiments) (w_assets w)).1 in
  ∃ created experiments_and_context,
    create_tasks envs_path config_path num_runs num_episodes output_dir
      task_prefix log_episode_frequency w = inr created
    ∧ experiments_and_context.*1 = experiments
    ∧ Forall (carries_baseline dyna_prog_index) experiments_and_context
    ∧ generated created
      = generate_tasks_from_experiments_context_and_run_config
          (mkRunConfig num_episodes log_episode_frequency output_dir)
          experiments_and_context num_runs task_prefix
    ∧ random_sample (w_rng w) (generated created) (length (generated created))
      = inr ((tasks_futures created).*1, w_rng (created_world created))
    ∧ (tasks_futures created).*1 ≡ₚ generated created
    ∧ submitted created = (tasks_futures created).*1
    ∧ submissions (w_pool w) (tasks_futures created)
        (w_pool (created_world created))
    ∧ created_log created
      = [Parsed (length (parse_experiment_configs config_path))
           (length (parse_environments envs_path))
           (length (tasks_futures created))].
Proof.
  intros experiments dyna_prog_index. unfold create_tasks.
  destruct (add_experiment_context_spec experiments (w_assets w))
    as (eac & Hadd & Hfst & Hall).
  fold experiments. rewrite Hadd. cbn [mbind exn_bind].
  set (tasks0 := generate_tasks_from_experiments_context_and_run_config _ _ _ _).
  destruct (random_sample_all Hrand (w_rng w) tasks0)
    as (shuffled & rng' & Hsample & Hperm).
  rewrite Hsample. cbn [mbind exn_bind].
  pose proof (submit_all_spec (w_pool w) shuffled) as (Hpairs & Hcalls & Hsub).
  destruct (submit_all (w_pool w) shuffled) as [[futures pool'] calls].
  cbn [fst snd] in Hpairs, Hcalls, Hsub.
  eexists _, eac. split; [reflexivity |]. cbn.
  split_and!; try done.
  - by rewrite Hpairs.
  - by rewrite Hpairs.
  - congruence.
  - by rewrite <- Hpairs at 1; rewrite length_fmap.
Qed.
End job_facts.

(** ** The completion loop *)

(** Lists of counts. *)
Lemma replicate_sorted_ge (m c : nat) : StronglySorted ge (replicate m c).
Proof.
  induction m as [|m IH]; simpl; constructor; [done |].
  apply Forall_forall. intros k Hk%elem_of_replicate_inv. lia.
Qed.

Lemma last_replicate (m c : nat) : m ≠ 0 → last (replicate m c) = Some c.
Proof.
  intros Hm. destruct m as [|m]; [done |].
  rewrite replicate_S_end. apply last_snoc.
Qed.

Lemma countdown_S (n : nat) : reverse (seq 0 (S n)) = n :: reverse (seq 0 n).
Proof. by rewrite seq_S, reverse_snoc. Qed.

Lemma countdown_strictly_decreasing (n : nat) :
  StronglySorted gt (reverse (seq 0 n)).
Proof.
  induction n as [|n IH]; [constructor |].
  rewrite countdown_S. constructor; [done |].
  apply Forall_forall. intros k Hk%elem_of_reverse%elem_of_seq. lia.
Qed.

Section loop_facts.
Context {float EnvArgs DaafConfig : Type}.
Context {ray : @Ray float EnvArgs DaafConfig}.
Implicit Types (pool : Pool) (refs futures : list ObjectRef).

Lemma log_finished_spec pool (finished_tasks : list ObjectRef) n_left out_of :
  (∀ future, future ∈ finished_tasks → succeeds (ray_get pool future)) →
  ∃ records,
    log_finished pool finished_tasks n_left out_of = (records, None)
    ∧ length records = length finished_tasks
    ∧ notified_handles records = finished_tasks
    ∧ remaining_counts records = replicate (length finished_tasks) n_left.
Proof.
  induction finished_tasks as [|finished_task rest IH]; intros Hget; simpl.
  - by exists [].
  - destruct (Hget finished_task (list_elem_of_here _ _)) as [task_id ->].
    destruct IH as (records & -> & Hlen & Hnot & Hrem).
    { intros future Hin. apply Hget. by apply list_elem_of_further. }
    eexists. split; [done |].
    unfold notified_handles, remaining_counts in *.
    split_and!; simpl; [congruence | f_equal; exact Hnot | f_equal; exact Hrem].
Qed.

(** One call of [ray.wait] on a non-empty list leaves fewer handles
    outstanding. *)
Lemma wait_shrinks (Hpart : wait_partitions) (Hsome : wait_returns_finished)
    pool refs :
  refs ≠ [] → length (ray_wait pool refs).1.2 < length refs.
Proof.
  intros Hne. pose proof (Hsome pool refs Hne) as Hfin.
  rewrite (Hpart pool refs) at 2. rewrite length_app.
  destruct ((ray_wait pool refs).1.1); [done | simpl; lia].
Qed.

Lemma wait_on_nothing (Hpart : wait_partitions) pool :
  (ray_wait pool []).1.1 = [] ∧ (ray_wait pool []).1.2 = [].
Proof.
  pose proof (Hpart pool []) as Hnil. symmetry in Hnil.
  apply Permutation_nil_r in Hnil. by apply app_eq_nil in Hnil.
Qed.

Lemma wait_loop_terminates (Hpart : wait_partitions)
    (Hsome : wait_returns_finished) fuel pool refs n_futures :
  length refs < fuel →
  (wait_loop fuel pool refs n_futures).2 ≠ OutOfFuel.
Proof.
  revert pool refs.
  induction fuel as [|fuel IH]; intros pool refs Hfuel; [lia |].
  simpl.
  pose proof (wait_shrinks Hpart Hsome pool refs) as Hshrink.
  pose proof (wait_on_nothing Hpart pool) as Hnil.
  destruct (ray_wait pool refs) as [[finished unfinished] pool'] eqn:Hwait.
  simpl in Hshrink.
  destruct (log_finished pool' finished (length unfinished) n_futures)
    as [records [e|]]; [done |].
  case_bool_decide as Hleft; [done |].
  specialize (IH pool' unfinished).
  destruct (wait_loop fuel pool' unfinished n_futures) as [records' o].
  simpl in *. apply IH.
  destruct refs as [|ref refs].
  - rewrite Hwait in Hnil. simpl in Hnil. destruct Hnil as [_ ->]. done.
  - specialize (Hshrink ltac:(done)). simpl in *. lia.
Qed.

Lemma wait_loop_spec (Hpart : wait_partitions) (Hsome : wait_returns_finished)
    fuel pool refs n_futures :
  length refs < fuel →
  all_finish refs →
  ∃ records,
    wait_loop fuel pool refs n_futures = (records, Done)
    ∧ length records = length refs
    ∧ notified_handles records ≡ₚ refs
    ∧ length (remaining_counts records) = length refs
    ∧ Forall (λ k, k < length refs) (remaining_counts records)
    ∧ StronglySorted ge (remaining_counts records)
    ∧ (refs ≠ [] → last (remaining_counts records) = Some 0)
    ∧ (wait_returns_one →
       remaining_counts records = reverse (seq 0 (length refs))).
Proof.
  revert pool refs.
  induction fuel as [|fuel IH]; intros pool refs Hfuel Hfinish; [lia |].
  simpl.
  pose proof (wait_shrinks Hpart Hsome pool refs) as Hshrink.
  pose proof (wait_on_nothing Hpart pool) as Hnil.
  pose proof (Hpart pool refs) as Hsplit.
  pose proof (Hsome pool refs) as Hfin.
  assert (Hone : wait_returns_one → length (ray_wait pool refs).1.1 ≤ 1)
    by (intros Hone; apply Hone).
  destruct (ray_wait pool refs) as [[finished unfinished] pool'] eqn:Hwait.
  simpl in Hshrink, Hsplit, Hfin, Hone.
  assert (Hlen : length refs = length finished + length unfinished)
    by (by rewrite Hsplit, length_app).
  destruct (log_finished_spec pool' finished (length unfinished) n_futures)
    as (records & -> & Hrlen & Hnot & Hrem).
  { intros future Hin. apply Hfinish. rewrite Hsplit, elem_of_app. by left. }
  case_bool_decide as Hleft.
  - (* nothing left: the loop ends *)
    apply length_zero_iff_nil in Hleft as ->.
    rewrite app_nil_r in Hsplit. simpl in *.
    exists records. rewrite Hnot, Hrem, length_replicate.
    split_and!.
    + done.
    + lia.
    + done.
    + lia.
    + destruct refs as [|ref refs'].
      * rewrite Hwait in Hnil. simpl in Hnil. destruct Hnil as [-> _].
        constructor.
      * apply Forall_replicate. simpl. lia.
    + apply replicate_sorted_ge.
    + intros Hne. apply last_replicate. specialize (Hfin Hne).
      by destruct finished.
    + intros Hret. specialize (Hone Hret). rewrite Hlen.
      destruct finished as [|future [|]]; simpl in *; [done | done | lia].
  - (* some left: go round again *)
    assert (Hne : refs ≠ []).
    { intros ->. rewrite Hwait in Hnil. simpl in Hnil.
      destruct Hnil as [_ ->]. done. }
    specialize (Hshrink Hne). specialize (Hfin Hne).
    destruct (IH pool' unfinished) as
      (records' & -> & Hrlen' & Hnot' & Hclen' & Hbound' & Hsorted' & Hlast' & Hone').
    { lia. }
    { intros p future Hin. apply Hfinish. rewrite Hsplit, elem_of_app. by right. }
    exists (records ++ records').
    unfold notified_handles, remaining_counts in *.
    rewrite !omap_app, Hnot, Hrem, !length_app, length_replicate.
    split_and!.
    + done.
    + lia.
    + by rewrite Hnot', Hsplit.
    + lia.
    + apply Forall_app. split.
      * apply Forall_replicate. lia.
      * eapply Forall_impl; [exact Hbound' |]. simpl. lia.
    + apply StronglySorted_app_2; [| apply replicate_sorted_ge | done].
      intros k1 k2 ->%elem_of_replicate_inv Hk2.
      rewrite Forall_forall in Hbound'. specialize (Hbound' _ Hk2).
      simpl in Hbound'. unfold ge. lia.
    + intros _. rewrite last_app, Hlast'; [done |].
      intros ->. done.
    + intros Hret. specialize (Hone Hret). rewrite (Hone' Hret), Hlen.
      destruct finished as [|future [|]]; [done | | simpl in Hone; lia].
      cbn [length replicate app Nat.add]. by rewrite countdown_S.
Qed.
End loop_facts.

(** ** The small batch meets the collaborators' contracts *)

Lemma tape_in_range : @randbelow_in_range example.tape.
Proof.
  intros [|x rest] n Hn; simpl; [done |].
  apply Nat.mod_upper_bound. lia.
Qed.

Lemma one_by_one_partitions : @wait_partitions string unit nat example.one_by_one.
Proof. intros pool [|ref rest]; simpl; done. Qed.

Lemma one_by_one_returns_finished :
  @wait_returns_finished string unit nat example.one_by_one.
Proof. intros pool [|ref rest] Hne; simpl; done. Qed.

Lemma one_by_one_returns_one : @wait_returns_one string unit nat example.one_by_one.
Proof. intros pool [|ref rest]; simpl; lia. Qed.

Lemma one_by_one_all_finish futures : @all_finish string unit nat example.one_by_one futures.
Proof. intros pool future _. by eexists. Qed.

Lemma one_fails_partitions : @wait_partitions string unit nat example.one_fails.
Proof. intros pool [|ref rest]; simpl; done. Qed.

Lemma one_fails_returns_finished :
  @wait_returns_finished string unit nat example.one_fails.
Proof. intros pool [|ref rest] Hne; simpl; done. Qed.

(** The model at work on the small batch. *)
Example batch_has_24_tasks :
  match example.batch with
  | inr created => Some (length (tasks_futures created), created_log created)
  | inl _ => None
  end = Some (24, [Parsed 3 2 24]).
Proof. vm_compute. reflexivity. Qed.

Example batch_handles_in_submission_order :
  match example.batch with
  | inr created => Some (tasks_futures created).*2
  | inl _ => None
  end = Some (seq 0 24).
Proof. vm_compute. reflexivity. Qed.

Example batch_has_four_baselines : size example.index = 4.
Proof. vm_compute. reflexivity. Qed.

Example scenario_reports_24_completions :
  let run :=
    @main string _ _ nat _ _ unit string nat example.collaborators
      example.one_by_one example.tape 25 "envs.json" "configs.csv" 4 100 "out"
      "run" 10 example.world in
  run.2 = Done
  ∧ length (@notified_handles string unit nat example.one_by_one run.1) = 24
  ∧ last (@remaining_counts string unit nat example.one_by_one run.1) = Some 0.
Proof. vm_compute. by split_and!. Qed.

Example one_by_one_counts_down :
  @remaining_counts string unit nat example.one_by_one
    (@wait_loop string unit nat example.one_by_one 4 0 [0; 1; 2] 3).1
  = [2; 1; 0].
Proof. reflexivity. Qed.

Example nothing_submitted_nothing_logged :
  @wait_loop string unit nat example.one_by_one 1 0 [] 0 = ([], Done).
Proof. reflexivity. Qed.

Example shuffle_of_three :
  @random_sample example.tape string [5; 3; 8; 1] ["a"; "b"; "c"] 3
  = inr (["c"; "b"; "a"], [1]).
Proof. reflexivity. Qed.

Example both_buffers_raise :
  new_CPRArgs 4 (Some "identity-mapper") (Some 10%Z) (Some 2%Z)
  = inl (ValueError_both_buffer_sizes (Some 10%Z) (Some 2%Z)).
Proof. reflexivity. Qed.

(** ** The claims about the completion loop *)

Section loop_claims.
Context {float EnvArgs DaafConfig : Type}.
Context {ray : @Ray float EnvArgs DaafConfig}.

(** C2: over N submitted handles whose tasks all finish, the loop, which
    calls [ray.wait] with its default [num_returns=1] (a call splits its
    argument and returns one finished handle from a non-empty one), ends
    normally after exactly N notifications, each handle notified exactly
    once, and the remaining count reported with them strictly decreases,
    N-1, ..., 0, down to zero. *)
Theorem completion_loop_notifies_each_once
    (Hpart : wait_partitions) (Hsome : wait_returns_finished)
    (Hone : wait_returns_one)
    (fuel : nat) (pool : Pool) (futures : list ObjectRef) :
  length futures < fuel →
  all_finish futures →
  ∃ records,
    wait_loop fuel pool futures (length futures) = (records, Done)
    ∧ length records = length futures
    ∧ notified_handles records ≡ₚ futures
    ∧ length (remaining_counts records) = length futures
    ∧ remaining_counts records = reverse (seq 0 (length futures))
    ∧ StronglySorted gt (remaining_counts records)
    ∧ Forall (λ k, k < length futures) (remaining_counts records)
    ∧ (futures ≠ [] → last (remaining_counts records) = Some 0).
Proof.
  intros Hfuel Hfinish.
  destruct (wait_loop_spec Hpart Hsome fuel pool futures (length futures)
              Hfuel Hfinish)
    as (records & Hrun & Hlen & Hnot & Hclen & Hbound & Hsorted & Hlast & Hcount).
  exists records. split_and!; [done | done | done | done | | | done | done].
  - by apply Hcount.
  - rewrite (Hcount Hone). apply countdown_strictly_decreasing.
Qed.

(** C5: with a [ray.wait] that splits its argument and returns at least
    one finished handle from a non-empty one, each call leaves strictly
    fewer handles outstanding, and the loop over any finite list of
    handles stops (it ends normally or a task's error is raised) within
    one iteration per handle, plus one for the empty list. *)
Theorem completion_loop_terminates
    (Hpart : wait_partitions) (Hsome : wait_returns_finished)
    (pool : Pool) (futures : list ObjectRef) (n_futures : nat) :
  (futures ≠ [] → length (ray_wait pool futures).1.2 < length futures)
  ∧ (∀ fuel, length futures < fuel →
       (wait_loop fuel pool futures n_futures).2 ≠ OutOfFuel)
  ∧ (∃ records o,
       wait_loop (S (length futures)) pool futures n_futures = (records, o)
       ∧ (o = Done ∨ ∃ e, o = Raised e)).
Proof.
  split_and!.
  - by apply wait_shrinks.
  - intros fuel Hfuel. by apply wait_loop_terminates.
  - pose proof (wait_loop_terminates Hpart Hsome (S (length futures)) pool
                  futures n_futures ltac:(lia)) as Hstop.
    destruct (wait_loop _ _ _ _) as [records o]. exists records, o.
    split; [done |]. destruct o; [by left | right; by eexists | done].
Qed.
End loop_claims.

Lemma completion_loop_notifies_each_once_witness :
  ∃ records,
    @wait_loop string unit nat example.one_by_one 4 0 [0; 1; 2] 3 = (records, Done)
    ∧ length records = 3
    ∧ @notified_handles string unit nat example.one_by_one records ≡ₚ [0; 1; 2]
    ∧ length (@remaining_counts string unit nat example.one_by_one records) = 3
    ∧ @remaining_counts string unit nat example.one_by_one records = [2; 1; 0]
    ∧ StronglySorted gt (@remaining_counts string unit nat example.one_by_one records)
    ∧ Forall (λ k, k < 3) (@remaining_counts string unit nat example.one_by_one records)
    ∧ (([0; 1; 2] : list nat) ≠ [] →
       last (@remaining_counts string unit nat example.one_by_one records) = Some 0).
Proof.
  apply (@completion_loop_notifies_each_once string unit nat example.one_by_one
           one_by_one_partitions one_by_one_returns_finished
           one_by_one_returns_one 4 0 [0; 1; 2]).
  - simpl. lia.
  - apply one_by_one_all_finish.
Defined.

Lemma completion_loop_terminates_witness :
  (([7; 8] : list nat) ≠ [] →
   length (@ray_wait string unit nat example.one_by_one 0 [7; 8]).1.2 < 2)
  ∧ (∀ fuel, 2 < fuel →
       (@wait_loop string unit nat example.one_by_one fuel 0 [7; 8] 2).2 ≠ OutOfFuel)
  ∧ (∃ records o,
       @wait_loop string unit nat example.one_by_one 3 0 [7; 8] 2 = (records, o)
       ∧ (o = Done ∨ ∃ e, o = Raised e)).
Proof.
  exact (@completion_loop_terminates string unit nat example.one_by_one
           one_by_one_partitions one_by_one_returns_finished 0 [7; 8] 2).
Defined.

(** ** The claims about the shuffle and about task generation *)

Section shuffle_claims.
Context {random : Random} {A : Type}.

(** C4: for every task sequence, the empty one included, the shuffle
    [random.sample(tasks, len(tasks))] returns a permutation of it: the
    same elements with the same multiplicities, and the same length. *)
Theorem shuffle_is_permutation (Hrand : randbelow_in_range)
    (rng : Rng) (tasks : list A) :
  ∃ shuffled rng',
    random_sample rng tasks (length tasks) = inr (shuffled, rng')
    ∧ shuffled ≡ₚ tasks
    ∧ length shuffled = length tasks
    ∧ (∀ task, task ∈ shuffled ↔ task ∈ tasks)
    ∧ (NoDup tasks → NoDup shuffled)
    ∧ (tasks = [] → shuffled = []).
Proof.
  destruct (random_sample_all Hrand rng tasks)
    as (shuffled & rng' & Hrun & Hperm).
  exists shuffled, rng'. split_and!.
  - done.
  - done.
  - by rewrite Hperm.
  - intros task. by rewrite Hperm.
  - intros Hnodup. by rewrite Hperm.
  - intros ->. by apply Permutation_nil_r.
Qed.
End shuffle_claims.

Lemma shuffle_is_permutation_witness :
  ∃ shuffled rng',
    @random_sample example.tape string [5; 3; 8; 1] ["a"; "b"; "c"] 3
    = inr (shuffled, rng')
    ∧ shuffled ≡ₚ ["a"; "b"; "c"]
    ∧ length shuffled = 3
    ∧ (∀ task, task ∈ shuffled ↔ task ∈ ["a"; "b"; "c"])
    ∧ (NoDup ["a"; "b"; "c"] → NoDup shuffled)
    ∧ (["a"; "b"; "c"] = [] → shuffled = []).
Proof.
  exact (@shuffle_is_permutation example.tape string tape_in_range
           [5; 3; 8; 1] ["a"; "b"; "c"]).
Defined.

Section job_claims.
Context {float : Type} `{Countable float}.
Context {Level : Type} `{Countable Level}.
Context {EnvArgs MDP DaafConfig : Type}.
Context {collaborators : @Collaborators float Level EnvArgs MDP DaafConfig}.
Context {ray : @Ray float EnvArgs DaafConfig}.
Context {random : Random}.

Abbreviation BaselineKey := (string * Level * float)%type.
Abbreviation Index := (gmap BaselineKey (ndarray float)).

(** Where the indexed values come from: the storage location if it had
    the key, the solver on the mdp of some spec with that key if not. *)
Lemma build_entries_values (specs : list (string * Level * float * MDP))
    (index storage : Index) key values :
  (build_entries specs index storage).1 !! key = Some values →
  index !! key = Some values
  ∨ (index !! key = None
     ∧ (storage !! key = Some values
        ∨ (storage !! key = None
           ∧ ∃ mdp, (key, mdp) ∈ specs
                    ∧ values = dynamic_prog_estimation mdp key.2))).
Proof.
  revert index storage.
  induction specs as [|[[[name level] gamma] mdp] rest IH];
    intros index storage; cbn [build_entries fst].
  - by left.
  - destruct (index !! (name, level, gamma)) as [present|] eqn:Hindex.
    + intros [? | (? & [? | (? & mdp' & ? & ?)])]%IH; [by left | right ..].
      * split; [done | by left].
      * split; [done |]. right. split; [done |]. exists mdp'.
        split; [by apply list_elem_of_further | done].
    + destruct (storage !! (name, level, gamma)) as [stored|] eqn:Hstorage.
      * intros [Hk | (Hk & Hrest)]%IH.
        -- destruct (decide ((name, level, gamma) = key)) as [<- | Hne].
           ++ rewrite lookup_insert_eq in Hk. simplify_eq.
              right. split; [done | by left].
           ++ rewrite lookup_insert_ne in Hk by done. by left.
        -- destruct (decide ((name, level, gamma) = key)) as [<- | Hne].
           ++ by rewrite lookup_insert_eq in Hk.
           ++ rewrite lookup_insert_ne in Hk by done.
              right. split; [done |].
              destruct Hrest as [? | (? & mdp' & ? & ?)]; [by left | right].
              split; [done |]. exists mdp'.
              split; [by apply list_elem_of_further | done].
      * intros [Hk | (Hk & Hrest)]%IH.
        -- destruct (decide ((name, level, gamma) = key)) as [<- | Hne].
           ++ rewrite lookup_insert_eq in Hk. simplify_eq.
              right. split; [done |]. right. split; [done |].
              exists mdp. split; [apply list_elem_of_here | done].
           ++ rewrite lookup_insert_ne in Hk by done. by left.
        -- destruct (decide ((name, level, gamma) = key)) as [<- | Hne].
           ++ by rewrite lookup_insert_eq in Hk.
           ++ rewrite lookup_insert_ne in Hk by done.
              rewrite lookup_insert_ne in Hrest by done.
              right. split; [done |].
              destruct Hrest as [? | (? & mdp' & ? & ?)]; [by left | right].
              split; [done |]. exists mdp'.
              split; [by apply list_elem_of_further | done].
Qed.

(** C3: the batch has |environments| x |experiment configs| x num_runs
    tasks: one experiment per pair of the cross product, repeated pairs
    included, and [num_runs] tasks per experiment; the shuffle and the
    submission keep the count, and [create_tasks] logs it. *)
Theorem create_tasks_count (Hrand : randbelow_in_range)
    (envs_path config_path : string) (num_runs : nat) (num_episodes : Z)
    (output_dir task_prefix : string) (log_episode_frequency : Z) (w : World) :
  let n_envs := length (parse_environments envs_path) in
  let n_configs := length (parse_experiment_configs config_path) in
  length (create_experiments (parse_environments envs_path)
            (parse_experiment_configs config_path))
  = n_envs * n_configs
  ∧ ∃ created,
      create_tasks envs_path config_path num_runs num_episodes output_dir
        task_prefix log_episode_frequency w = inr created
      ∧ length (generated created) = n_envs * n_configs * num_runs
      ∧ length (tasks_futures created) = n_envs * n_configs * num_runs
      ∧ created_log created
        = [Parsed n_configs n_envs (n_envs * n_configs * num_runs)].
Proof.
  intros n_envs n_configs.
  split; [apply create_experiments_length |].
  destruct (create_tasks_spec Hrand envs_path config_path num_runs
              num_episodes output_dir task_prefix log_episode_frequency w)
    as (created & eac & Hrun & Hfst & _ & Hgen & _ & Hperm & _ & _ & Hlog).
  assert (Hcount : length (generated created) = n_envs * n_configs * num_runs).
  { rewrite Hgen.
    unfold generate_tasks_from_experiments_context_and_run_config.
    rewrite generate_tasks_from_length.
    rewrite <- (length_fmap fst eac), Hfst, create_experiments_length. done. }
  assert (Hsub : length (tasks_futures created) = n_envs * n_configs * num_runs).
  { by rewrite <- (length_fmap fst (tasks_futures created)), Hperm. }
  exists created. split_and!; [done .. |].
  by rewrite Hlog, Hsub.
Qed.

(** The steps of [create_tasks], with the intermediate values named. *)
Lemma create_tasks_steps (Hrand : randbelow_in_range)
    (envs_path config_path : string) (num_runs : nat) (num_episodes : Z)
    (output_dir task_prefix : string) (log_episode_frequency : Z) (w : World) :
  ∃ created experiments_and_context shuffled,
    create_tasks envs_path config_path num_runs num_episodes output_dir
      task_prefix log_episode_frequency w = inr created
    ∧ add_experiment_context
        (create_experiments (parse_environments envs_path)
           (parse_experiment_configs config_path)) (w_assets w)
      = inr (experiments_and_context, w_assets (created_world created))
    ∧ experiments_and_context.*1
      = create_experiments (parse_environments envs_path)
          (parse_experiment_configs config_path)
    ∧ generated created
      = generate_tasks_from_experiments_context_and_run_config
          (mkRunConfig num_episodes log_episode_frequency output_dir)
          experiments_and_context num_runs task_prefix
    ∧ random_sample (w_rng w) (generated created) (length (generated created))
      = inr (shuffled, w_rng (created_world created))
    ∧ shuffled ≡ₚ generated created
    ∧ submit_all (w_pool w) shuffled
      = (tasks_futures created, w_pool (created_world created),
         submitted created).
Proof.
  unfold create_tasks.
  destruct (add_experiment_context_spec
              (create_experiments (parse_environments envs_path)
                 (parse_experiment_configs config_path)) (w_assets w))
    as (eac & Hadd & Hfst & _).
  rewrite Hadd. cbn [mbind exn_bind].
  set (tasks0 := generate_tasks_from_experiments_context_and_run_config _ _ _ _).
  destruct (random_sample_all Hrand (w_rng w) tasks0)
    as (shuffled & rng' & Hsample & Hperm).
  rewrite Hsample. cbn [mbind exn_bind].
  destruct (submit_all (w_pool w) shuffled) as [[futures pool'] calls] eqn:Hsubmit.
  eexists _, eac, shuffled. split; [reflexivity |]. cbn.
  by split_and!.
Qed.

(** C6: [create_tasks] calls [evaluate.remote] once per generated task,
    none skipped or repeated, in the order the shuffle returned, and the
    pairs it returns hold each task with the handle that its own call
    returned.  The generated tasks are what the generator yields for the
    experiments with their contexts; the calls are the shuffle of these,
    as many as there are tasks; the pairs are what the submission loop
    returns for the calls. *)
Theorem submission_once_per_task_in_order (Hrand : randbelow_in_range)
    (envs_path config_path : string) (num_runs : nat) (num_episodes : Z)
    (output_dir task_prefix : string) (log_episode_frequency : Z) (w : World) :
  ∃ created experiments_and_context,
    create_tasks envs_path config_path num_runs num_episodes output_dir
      task_prefix log_episode_frequency w = inr created
    ∧ add_experiment_context
        (create_experiments (parse_environments envs_path)
           (parse_experiment_configs config_path)) (w_assets w)
      = inr (experiments_and_context, w_assets (created_world created))
    ∧ generated created
      = generate_tasks_from_experiments_context_and_run_config
          (mkRunConfig num_episodes log_episode_frequency output_dir)
          experiments_and_context num_runs task_prefix
    ∧ random_sample (w_rng w) (generated created) (length (generated created))
      = inr (submitted created, w_rng (created_world created))
    ∧ submitted created ≡ₚ generated created
    ∧ length (submitted created)
      = length (parse_environments envs_path)
        * length (parse_experiment_configs config_path) * num_runs
    ∧ submit_all (w_pool w) (submitted created)
      = (tasks_futures created, w_pool (created_world created),
         submitted created)
    ∧ (tasks_futures created).*1 = submitted created
    ∧ length (tasks_futures created) = length (submitted created)
    ∧ submissions (w_pool w) (tasks_futures created)
        (w_pool (created_world created)).
Proof.
  destruct (create_tasks_steps Hrand envs_path config_path num_runs
              num_episodes output_dir task_prefix log_episode_frequency w)
    as (created & eac & shuffled & Hrun & Hadd & Hfst & Hgen & Hsample & Hperm
        & Hsubmit).
  pose proof (submit_all_spec (w_pool w) shuffled) as (Hpairs & Hcalls & Hsub).
  rewrite Hsubmit in Hpairs, Hcalls, Hsub. cbn [fst snd] in Hpairs, Hcalls, Hsub.
  exists created, eac. rewrite Hcalls in Hsubmit |- *.
  split_and!; [done | done | done | done | done | | done | done | | done].
  - rewrite Hperm, Hgen.
    unfold generate_tasks_from_experiments_context_and_run_config.
    rewrite generate_tasks_from_length.
    by rewrite <- (length_fmap fst eac), Hfst, create_experiments_length.
  - by rewrite <- Hpairs, length_fmap.
Qed.

(** C7: the context of every task holds, under
    ["dyna_prog_state_values"], the indexed state values of its
    experiment's (name, level, discount factor) key as a list, not as an
    array; tasks whose experiments have the same key hold the same list.
    The indexed values are those stored under the key, or else the
    solver's for a spec with that key. *)
Theorem tasks_carry_baseline_list (Hrand : randbelow_in_range)
    (envs_path config_path : string) (num_runs : nat) (num_episodes : Z)
    (output_dir task_prefix : string) (log_episode_frequency : Z) (w : World) :
  let experiments :=
    create_experiments (parse_environments envs_path)
      (parse_experiment_configs config_path) in
  let dyna_prog_index :=
    (build_index (dyna_prog_spec <$> experiments) (w_assets w)).1 in
  (∃ experiments_and_context,
     add_experiment_context experiments (w_assets w)
     = inr (experiments_and_context,
            (build_index (dyna_prog_spec <$> experiments) (w_assets w)).2)
     ∧ experiments_and_context.*1 = experiments
     ∧ Forall (carries_baseline dyna_prog_index) experiments_and_context)
  ∧ (∃ created,
       create_tasks envs_path config_path num_runs num_episodes output_dir
         task_prefix log_episode_frequency w = inr created
       ∧ (∀ task, task ∈ (tasks_futures created).*1 →
            ∃ values,
              dyna_prog_index !! baseline_key (experiment task) = Some values
              ∧ context task !! "dyna_prog_state_values"
                = Some (PyList (tolist values)))
       ∧ (∀ task1 task2,
            task1 ∈ (tasks_futures created).*1 →
            task2 ∈ (tasks_futures created).*1 →
            baseline_key (experiment task1) = baseline_key (experiment task2) →
            context task1 !! "dyna_prog_state_values"
            = context task2 !! "dyna_prog_state_values"))
  ∧ (∀ key values,
       dyna_prog_index !! key = Some values →
       w_assets w !! key = Some values
       ∨ (w_assets w !! key = None
          ∧ ∃ mdp, (key, mdp) ∈ dyna_prog_spec <$> experiments
                   ∧ values = dynamic_prog_estimation mdp key.2)).
Proof.
  intros experiments dyna_prog_index.
  split_and!.
  - apply add_experiment_context_spec.
  - destruct (create_tasks_spec Hrand envs_path config_path num_runs
                num_episodes output_dir task_prefix log_episode_frequency w)
      as (created & eac & Hrun & _ & Hall & Hgen & _ & Hperm & _).
    assert (Hcarry : ∀ task, task ∈ (tasks_futures created).*1 →
              ∃ values,
                dyna_prog_index !! baseline_key (experiment task) = Some values
                ∧ context task !! "dyna_prog_state_values"
                  = Some (PyList (tolist values))).
    { intros task Hin. rewrite Hperm, Hgen in Hin.
      apply generate_tasks_from_origin in Hin.
      rewrite Forall_forall in Hall.
      destruct (Hall _ Hin) as (values & Hvalues & Hctx). simpl in *.
      exists values. split; [done |].
      rewrite Hctx. apply lookup_singleton_eq. }
    exists created. split_and!; [done | done |].
    intros task1 task2 Hin1 Hin2 Hkey.
    destruct (Hcarry _ Hin1) as (values1 & Hv1 & ->).
    destruct (Hcarry _ Hin2) as (values2 & Hv2 & ->).
    rewrite Hkey in Hv1. congruence.
  - intros key values Hkey.
    apply build_entries_values in Hkey
      as [Hempty | (_ & [? | (? & ?)])]; [| by left | by right].
    by rewrite lookup_empty in Hempty.
Qed.
End job_claims.

(** The scenario of the spec: 2 environments, 3 configurations, 4 runs. *)
Lemma create_tasks_count_witness :
  length example.experiments = 2 * 3
  ∧ ∃ created,
      example.batch = inr created
      ∧ length (generated created) = 2 * 3 * 4
      ∧ length (tasks_futures created) = 2 * 3 * 4
      ∧ created_log created = [Parsed 3 2 (2 * 3 * 4)].
Proof.
  exact (@create_tasks_count string _ _ nat _ _ unit string nat
           example.collaborators example.one_by_one example.tape tape_in_range
           "envs.json" "configs.csv" 4 100%Z "out" "run" 10%Z example.world).
Defined.

Lemma submission_once_per_task_in_order_witness :
  ∃ created experiments_and_context,
    example.batch = inr created
    ∧ @add_experiment_context string _ _ nat _ _ unit string nat
        example.collaborators example.experiments (w_assets example.world)
      = inr (experiments_and_context, w_assets (created_world created))
    ∧ generated created
      = generate_tasks_from_experiments_context_and_run_config
          (mkRunConfig 100 10 "out") experiments_and_context 4 "run"
    ∧ random_sample (w_rng example.world) (generated created)
        (length (generated created))
      = inr (submitted created, w_rng (created_world created))
    ∧ submitted created ≡ₚ generated created
    ∧ length (submitted created) = 24
    ∧ submit_all (w_pool example.world) (submitted created)
      = (tasks_futures created, w_pool (created_world created),
         submitted created)
    ∧ (tasks_futures created).*1 = submitted created
    ∧ length (tasks_futures created) = length (submitted created)
    ∧ submissions (w_pool example.world) (tasks_futures created)
        (w_pool (created_world created)).
Proof.
  exact (@submission_once_per_task_in_order string _ _ nat _ _ unit string nat
           example.collaborators example.one_by_one example.tape tape_in_range
           "envs.json" "configs.csv" 4 100%Z "out" "run" 10%Z example.world).
Defined.

Lemma tasks_carry_baseline_list_witness :
  ∃ created,
    example.batch = inr created
    ∧ (∀ task, task ∈ (tasks_futures created).*1 →
         ∃ values,
           example.index
             !! @baseline_key string nat unit string nat example.collaborators
                  (experiment task)
           = Some values
           ∧ context task !! "dyna_prog_state_values"
             = Some (PyList (tolist values)))
    ∧ (∀ task1 task2,
         task1 ∈ (tasks_futures created).*1 →
         task2 ∈ (tasks_futures created).*1 →
         @baseline_key string nat unit string nat example.collaborators
           (experiment task1)
         = @baseline_key string nat unit string nat example.collaborators
             (experiment task2) →
         context task1 !! "dyna_prog_state_values"
         = context task2 !! "dyna_prog_state_values").
Proof.
  exact (proj1 (proj2
    (@tasks_carry_baseline_list string _ _ nat _ _ unit string nat
       example.collaborators example.one_by_one example.tape tape_in_range
       "envs.json" "configs.csv" 4 100%Z "out" "run" 10%Z example.world))).
Defined.

(** * Further properties of the code *)

Import worker completion.

(** ** [CPRArgs.__post_init__] *)

(** X1: the mapper is checked before the buffers: an unknown, non-empty
    mapper is the error reported whatever the buffer fields hold, and the
    both-buffers error is reported exactly when the mapper passes and both
    fields are set. *)
Theorem post_init_reports_mapper_first (rp : Z) (m : option string)
    (bs bsm : option Z) (e : exn) :
  new_CPRArgs rp m bs bsm = inl e ↔
    (truthy m = true ∧ not_in m CU_MAPPER_METHODS = true
     ∧ e = ValueError_unknown_mapper m)
    ∨ (mapper_is_falsy_or_known m
       ∧ (∃ b k, bs = Some b ∧ bsm = Some k)
       ∧ e = ValueError_both_buffer_sizes bs bsm).
Proof.
  rewrite new_CPRArgs_cases.
  destruct (truthy m && not_in m CU_MAPPER_METHODS) eqn:Hmapper.
  - apply andb_true_iff in Hmapper as [Ht Hn]. split.
    + intros [= <-]. by left.
    + intros [(_ & _ & ->) | (Hok & _)]; [done |].
      apply mapper_check_spec in Hok. by rewrite Ht, Hn in Hok.
  - pose proof (proj1 (mapper_check_spec m) Hmapper) as Hok.
    assert (Hnot : ¬ (truthy m = true ∧ not_in m CU_MAPPER_METHODS = true
                      ∧ e = ValueError_unknown_mapper m)).
    { intros (Ht & Hn & _). by rewrite Ht, Hn in Hmapper. }
    destruct bs as [b|], bsm as [k|]; simpl.
    + split.
      * intros [= <-]. right. split_and!; [done | by eauto | done].
      * intros [? | (_ & _ & ->)]; done.
    + split; [done |]. intros [? | (_ & (? & ? & _ & [=]) & _)]. done.
    + split; [done |]. intros [? | (_ & (? & ? & [=] & _) & _)]. done.
    + split; [done |]. intros [? | (_ & (? & ? & [=] & _) & _)]. done.
Qed.

(** X2: construction never looks at the numbers: the reward period and the
    values inside the buffer fields do not change whether it succeeds or
    which error it raises (zero and negative values are accepted), and on
    success the instance holds the arguments as given, with no default
    filled in for an unset buffer field. *)
Theorem post_init_ignores_numbers (rp rp' : Z) (m : option string)
    (bs bs' bsm bsm' : option Z) :
  is_not_None bs = is_not_None bs' →
  is_not_None bsm = is_not_None bsm' →
  (succeeds (new_CPRArgs rp m bs bsm) ↔ succeeds (new_CPRArgs rp' m bs' bsm'))
  ∧ (new_CPRArgs rp m bs bsm = inl (ValueError_unknown_mapper m)
     ↔ new_CPRArgs rp' m bs' bsm' = inl (ValueError_unknown_mapper m))
  ∧ (∀ a, new_CPRArgs rp m bs bsm = inr a →
       reward_period a = rp ∧ cu_step_mapper a = m
       ∧ buffer_size a = bs ∧ buffer_size_multiplier a = bsm).
Proof.
  intros Hbs Hbsm. rewrite !new_CPRArgs_cases, <- Hbs, <- Hbsm.
  unfold succeeds.
  destruct (truthy m && not_in m CU_MAPPER_METHODS).
  { split_and!; [| done | by intros a [=]].
    split; by intros [? [=]]. }
  destruct (is_not_None bs && is_not_None bsm).
  { split_and!; [| | by intros a [=]].
    - split; by intros [? [=]].
    - split; by intros [=]. }
  split_and!.
  - split; intros _; by eexists.
  - split; by intros [=].
  - by intros a [= <-].
Qed.

Lemma post_init_ignores_numbers_witness :
  (succeeds (new_CPRArgs 4 (Some "identity-mapper") (Some 10%Z) None)
   ↔ succeeds (new_CPRArgs (-3) (Some "identity-mapper") (Some 0%Z) None))
  ∧ (new_CPRArgs 4 (Some "identity-mapper") (Some 10%Z) None
     = inl (ValueError_unknown_mapper (Some "identity-mapper"))
     ↔ new_CPRArgs (-3) (Some "identity-mapper") (Some 0%Z) None
       = inl (ValueError_unknown_mapper (Some "identity-mapper")))
  ∧ (∀ a, new_CPRArgs 4 (Some "identity-mapper") (Some 10%Z) None = inr a →
       reward_period a = 4%Z ∧ cu_step_mapper a = Some "identity-mapper"
       ∧ buffer_size a = Some 10%Z ∧ buffer_size_multiplier a = None).
Proof.
  exact (post_init_ignores_numbers 4 (-3) (Some "identity-mapper")
           (Some 10%Z) (Some 0%Z) None None eq_refl eq_refl).
Defined.


(** ** The completion loop when tasks may fail *)

Section loop_more.
Context {float EnvArgs DaafConfig : Type}.
Context {ray : @Ray float EnvArgs DaafConfig}.
Implicit Types (pool : Pool) (refs futures : list ObjectRef).

Lemma log_finished_general pool (finished_tasks : list ObjectRef) n_left out_of :
  ∃ logged,
    notified_handles (log_finished pool finished_tasks n_left out_of).1 = logged
    ∧ remaining_counts (log_finished pool finished_tasks n_left out_of).1
      = replicate (length logged) n_left
    ∧ Forall (λ record, ∃ finished_task task_id,
                record = Completed finished_task task_id n_left out_of
                ∧ finished_task ∈ finished_tasks
                ∧ ray_get pool finished_task = inr task_id)
        (log_finished pool finished_tasks n_left out_of).1
    ∧ match (log_finished pool finished_tasks n_left out_of).2 with
      | None => logged = finished_tasks
      | Some e =>
          ∃ failed later,
            finished_tasks = logged ++ failed :: later
            ∧ ray_get pool failed = inl e
      end.
Proof.
  induction finished_tasks as [|finished_task rest IH]; simpl.
  - exists []. by split_and!.
  - destruct (ray_get pool finished_task) as [e | task_id] eqn:Hget; simpl.
    + exists []. split_and!; [done | done | constructor |].
      by exists finished_task, rest.
    + destruct IH as (logged & Hnot & Hrem & Hall & Herr).
      destruct (log_finished pool rest n_left out_of) as [records err].
      simpl in *. exists (finished_task :: logged).
      unfold notified_handles, remaining_counts in *. split_and!.
      * simpl. f_equal. exact Hnot.
      * simpl. f_equal. exact Hrem.
      * constructor.
        -- exists finished_task, task_id. split_and!; [done | | done].
           apply list_elem_of_here.
        -- eapply Forall_impl; [exact Hall |].
           intros record (h & id & ? & ? & ?). exists h, id.
           split_and!; [done | by apply list_elem_of_further | done].
      * destruct err as [e|].
        -- destruct Herr as (failed & later & -> & ?). by exists failed, later.
        -- by rewrite Herr.
Qed.

Lemma remaining_counts_bounded refs n_futures (records : list LogRecord) :
  Forall (well_formed_record refs n_futures) records →
  Forall (λ k, k < length refs) (remaining_counts records).
Proof.
  induction 1 as [|record records (h & id & k & pool & -> & _ & _ & Hk) _ IH].
  - constructor.
  - unfold remaining_counts. simpl. by constructor.
Qed.

Lemma wait_loop_general (Hpart : wait_partitions) (Hsome : wait_returns_finished)
    fuel pool refs n_futures :
  length refs < fuel →
  ∃ rest,
    notified_handles (wait_loop fuel pool refs n_futures).1 ++ rest ≡ₚ refs
    ∧ Forall (well_formed_record refs n_futures)
        (wait_loop fuel pool refs n_futures).1
    ∧ length (notified_handles (wait_loop fuel pool refs n_futures).1)
      = length (wait_loop fuel pool refs n_futures).1
    ∧ StronglySorted ge (remaining_counts (wait_loop fuel pool refs n_futures).1)
    ∧ match (wait_loop fuel pool refs n_futures).2 with
      | Done => rest = []
      | Raised e => ∃ failed pool', failed ∈ rest ∧ ray_get pool' failed = inl e
      | OutOfFuel => False
      end.
Proof.
  revert pool refs.
  induction fuel as [|fuel IH]; intros pool refs Hfuel; [lia |].
  simpl.
  pose proof (wait_shrinks Hpart Hsome pool refs) as Hshrink.
  pose proof (wait_on_nothing Hpart pool) as Hnil.
  pose proof (Hpart pool refs) as Hsplit.
  destruct (ray_wait pool refs) as [[finished unfinished] pool'] eqn:Hwait.
  simpl in Hshrink, Hsplit.
  assert (Hlen : length refs = length finished + length unfinished)
    by (by rewrite Hsplit, length_app).
  destruct (log_finished_general pool' finished (length unfinished) n_futures)
    as (logged & Hnot & Hrem & Hall & Herr).
  destruct (log_finished pool' finished (length unfinished) n_futures)
    as [records err].
  simpl in Hnot, Hrem, Hall, Herr.
  assert (Hwf : length unfinished < length refs →
            Forall (well_formed_record refs n_futures) records).
  { intros Hlt. eapply Forall_impl; [exact Hall |].
    intros record (h & id & -> & Hin & Hget).
    exists h, id, (length unfinished), pool'.
    split_and!; [done | | done | done].
    rewrite Hsplit, elem_of_app. by left. }
  assert (Hrlen : length (notified_handles records) = length records).
  { clear -Hall. unfold notified_handles.
    induction Hall as [|record records (h & id & -> & _) _ IH]; [done |].
    simpl. f_equal. exact IH. }
  destruct err as [e|].
  - (* a task failed *)
    destruct Herr as (failed & later & -> & Hfail).
    rewrite length_app in Hlen. simpl in Hlen.
    exists ((failed :: later) ++ unfinished). simpl. split_and!.
    + by rewrite Hnot, Hsplit, <- !app_assoc.
    + apply Hwf. lia.
    + done.
    + rewrite Hrem. apply replicate_sorted_ge.
    + exists failed, pool'. split; [apply list_elem_of_here | done].
  - rewrite Herr in Hnot, Hrem. clear logged Herr.
    case_bool_decide as Hleft; simpl.
    + (* nothing left *)
      apply length_zero_iff_nil in Hleft as ->. rewrite app_nil_r in Hsplit.
      exists []. rewrite app_nil_r. split_and!.
      * by rewrite Hnot.
      * destruct refs as [|ref refs'].
        -- rewrite Hwait in Hnil. simpl in Hnil. destruct Hnil as [-> _].
           rewrite Hnot in Hrlen. symmetry in Hrlen.
           apply length_zero_iff_nil in Hrlen as ->. constructor.
        -- apply Hwf. simpl. lia.
      * done.
      * rewrite Hrem. apply replicate_sorted_ge.
      * done.
    + (* some left *)
      assert (Hne : refs ≠ []).
      { intros ->. rewrite Hwait in Hnil. simpl in Hnil.
        destruct Hnil as [_ ->]. done. }
      specialize (Hshrink Hne).
      destruct (IH pool' unfinished ltac:(lia))
        as (rest & Hperm' & Hall' & Hrlen' & Hsorted' & Hout').
      destruct (wait_loop fuel pool' unfinished n_futures) as [records' o].
      simpl in *. exists rest.
      unfold notified_handles, remaining_counts in *.
      rewrite !omap_app, !length_app. split_and!.
      * by rewrite <- app_assoc, Hperm', Hnot, Hsplit.
      * apply Forall_app. split; [by apply Hwf |].
        eapply Forall_impl; [exact Hall' |].
        intros record (h & id & k & p & -> & Hin & Hget & Hk).
        exists h, id, k, p. split_and!; [done | | done | lia].
        rewrite Hsplit, elem_of_app. by right.
      * by rewrite Hrlen, Hrlen'.
      * apply StronglySorted_app_2; [| | done].
        -- rewrite Hrem. intros k1 k2 ->%elem_of_replicate_inv Hk2.
           pose proof (remaining_counts_bounded _ _ _ Hall') as Hbound.
           rewrite Forall_forall in Hbound. specialize (Hbound _ Hk2).
           simpl in Hbound. unfold ge. lia.
        -- rewrite Hrem. apply replicate_sorted_ge.
      * destruct o; [done | | done].
        destruct Hout' as (failed & p & Hin & Hfail). by exists failed, p.
Qed.
End loop_more.

Section loop_more_claims.
Context {float EnvArgs DaafConfig : Type}.
Context {ray : @Ray float EnvArgs DaafConfig}.
Implicit Types (pool : Pool) (refs futures : list ObjectRef).

(** X3: the loop does not catch what [ray.get] raises.  It either ends
    normally with every handle notified, or ends with the error that
    [ray.get] raised for one of the submitted handles; then that handle and
    the ones still outstanding are not notified, so fewer than N
    notifications were logged. *)
Theorem task_error_ends_loop
    (Hpart : wait_partitions) (Hsome : wait_returns_finished)
    (fuel : nat) (pool : Pool) (futures : list ObjectRef) (n_futures : nat) :
  length futures < fuel →
  ((wait_loop fuel pool futures n_futures).2 = Done
   ∧ notified_handles (wait_loop fuel pool futures n_futures).1 ≡ₚ futures)
  ∨ (∃ e failed pool' rest,
       (wait_loop fuel pool futures n_futures).2 = Raised e
       ∧ ray_get pool' failed = inl e
       ∧ failed ∈ rest
       ∧ notified_handles (wait_loop fuel pool futures n_futures).1 ++ rest
         ≡ₚ futures
       ∧ length (wait_loop fuel pool futures n_futures).1 < length futures).
Proof.
  intros Hfuel.
  destruct (wait_loop_general Hpart Hsome fuel pool futures n_futures Hfuel)
    as (rest & Hperm & _ & Hlen & _ & Hout).
  destruct (wait_loop fuel pool futures n_futures) as [records o]. simpl in *.
  destruct o as [|e|]; [left | right | done].
  - subst rest. rewrite app_nil_r in Hperm. done.
  - destruct Hout as (failed & pool' & Hin & Hfail).
    exists e, failed, pool', rest. split_and!; [done .. |].
    rewrite <- Hperm, length_app, <- Hlen.
    destruct rest; [by apply elem_of_nil in Hin | simpl; lia].
Qed.

(** X4: whether or not tasks fail, every record the loop logs is for a
    submitted handle, carries the id that [ray.get] returned for it, a
    remaining count below the number of handles and the total passed in; no
    handle is logged more often than it was submitted, and the counts never
    increase. *)
Theorem notifications_are_well_formed
    (Hpart : wait_partitions) (Hsome : wait_returns_finished)
    (fuel : nat) (pool : Pool) (futures : list ObjectRef) (n_futures : nat) :
  length futures < fuel →
  Forall (well_formed_record futures n_futures)
    (wait_loop fuel pool futures n_futures).1
  ∧ (∃ rest,
       notified_handles (wait_loop fuel pool futures n_futures).1 ++ rest
       ≡ₚ futures)
  ∧ length (notified_handles (wait_loop fuel pool futures n_futures).1)
    = length (wait_loop fuel pool futures n_futures).1
  ∧ StronglySorted ge
      (remaining_counts (wait_loop fuel pool futures n_futures).1).
Proof.
  intros Hfuel.
  destruct (wait_loop_general Hpart Hsome fuel pool futures n_futures Hfuel)
    as (rest & Hperm & Hall & Hlen & Hsorted & _).
  split_and!; [done | by exists rest | done | done].
Qed.

(** X5: with one finished handle per [ray.wait] (the default
    [num_returns=1]) and no failing task, the loop over N handles makes
    exactly max(1, N) calls of [ray.wait]: it ends with that many
    iterations and not with fewer. *)
Theorem one_wait_per_handle
    (Hpart : wait_partitions) (Hsome : wait_returns_finished)
    (Hone : wait_returns_one)
    (fuel : nat) (pool : Pool) (futures : list ObjectRef) (n_futures : nat) :
  all_finish futures →
  (wait_loop fuel pool futures n_futures).2
  = if decide (max 1 (length futures) ≤ fuel) then Done else OutOfFuel.
Proof.
  revert pool futures.
  induction fuel as [|fuel IH]; intros pool futures Hfinish.
  { simpl. case_decide; [lia | done]. }
  simpl.
  pose proof (wait_on_nothing Hpart pool) as Hnil.
  pose proof (Hpart pool futures) as Hsplit.
  pose proof (Hsome pool futures) as Hfin.
  pose proof (Hone pool futures) as Hret.
  destruct (ray_wait pool futures) as [[finished unfinished] pool'] eqn:Hwait.
  simpl in Hsplit, Hfin, Hret.
  assert (Hlen : length futures = length finished + length unfinished)
    by (by rewrite Hsplit, length_app).
  destruct (log_finished_spec pool' finished (length unfinished) n_futures)
    as (records & -> & _).
  { intros future Hin. apply Hfinish. rewrite Hsplit, elem_of_app. by left. }
  case_bool_decide as Hleft.
  - simpl. case_decide; [done | lia].
  - assert (Hne : futures ≠ []).
    { intros ->. rewrite Hwait in Hnil. simpl in Hnil.
      destruct Hnil as [_ ->]. done. }
    specialize (Hfin Hne).
    assert (length finished = 1) as Hfinished
      by (destruct finished; [done | simpl in *; lia]).
    specialize (IH pool' unfinished).
    destruct (wait_loop fuel pool' unfinished n_futures) as [records' o].
    simpl in *. rewrite IH.
    + repeat case_decide; try done; lia.
    + intros p future Hin. apply Hfinish. rewrite Hsplit, elem_of_app. by right.
Qed.
End loop_more_claims.

(** Handle 5 of three fails: handle 4 is logged, the error of 5 ends the
    loop, handles 5 and 6 are not notified. *)
Lemma task_error_ends_loop_witness :
  @wait_loop string unit nat example.one_fails 4 0 [4; 5; 6] 3
  = ([@Completed string unit nat example.one_fails 4 "task" 2 3],
     Raised (TaskError "run failed"))
  ∧ ∃ e failed pool' rest,
      (@wait_loop string unit nat example.one_fails 4 0 [4; 5; 6] 3).2 = Raised e
      ∧ @ray_get string unit nat example.one_fails pool' failed = inl e
      ∧ failed ∈ rest
      ∧ @notified_handles string unit nat example.one_fails
          (@wait_loop string unit nat example.one_fails 4 0 [4; 5; 6] 3).1 ++ rest
        ≡ₚ [4; 5; 6]
      ∧ length (@wait_loop string unit nat example.one_fails 4 0 [4; 5; 6] 3).1 < 3.
Proof.
  split; [reflexivity |].
  destruct (@task_error_ends_loop string unit nat example.one_fails
              one_fails_partitions one_fails_returns_finished 4 0 [4; 5; 6] 3
              ltac:(simpl; lia))
    as [[Hdone _] | Hraised].
  - discriminate Hdone.
  - exact Hraised.
Defined.

Lemma notifications_are_well_formed_witness :
  Forall (@well_formed_record string unit nat example.one_by_one [4; 5] 2)
    (@wait_loop string unit nat example.one_by_one 3 0 [4; 5] 2).1
  ∧ (∃ rest,
       @notified_handles string unit nat example.one_by_one
         (@wait_loop string unit nat example.one_by_one 3 0 [4; 5] 2).1 ++ rest
       ≡ₚ [4; 5])
  ∧ length (@notified_handles string unit nat example.one_by_one
              (@wait_loop string unit nat example.one_by_one 3 0 [4; 5] 2).1)
    = length (@wait_loop string unit nat example.one_by_one 3 0 [4; 5] 2).1
  ∧ StronglySorted ge
      (@remaining_counts string unit nat example.one_by_one
         (@wait_loop string unit nat example.one_by_one 3 0 [4; 5] 2).1).
Proof.
  apply (@notifications_are_well_formed string unit nat example.one_by_one
           one_by_one_partitions one_by_one_returns_finished 3 0 [4; 5] 2).
  simpl. lia.
Defined.

Lemma one_wait_per_handle_witness :
  (@wait_loop string unit nat example.one_by_one 2 0 [4; 5; 6] 3).2 = OutOfFuel
  ∧ (@wait_loop string unit nat example.one_by_one 3 0 [4; 5; 6] 3).2 = Done.
Proof.
  split.
  - exact (@one_wait_per_handle string unit nat example.one_by_one
             one_by_one_partitions one_by_one_returns_finished
             one_by_one_returns_one 2 0 [4; 5; 6] 3
             (one_by_one_all_finish [4; 5; 6])).
  - exact (@one_wait_per_handle string unit nat example.one_by_one
             one_by_one_partitions one_by_one_returns_finished
             one_by_one_returns_one 3 0 [4; 5; 6] 3
             (one_by_one_all_finish [4; 5; 6])).
Defined.

(** ** Submission, [main] as a whole, and the empty batch *)

Section job_more_claims.
Context {float : Type} `{Countable float}.
Context {Level : Type} `{Countable Level}.
Context {EnvArgs MDP DaafConfig : Type}.
Context {collaborators : @Collaborators float Level EnvArgs MDP DaafConfig}.
Context {ray : @Ray float EnvArgs DaafConfig}.
Context {random : Random}.

Abbreviation ExperimentTask := (@ExperimentTask float EnvArgs DaafConfig).

(** X6: submitting a list of tasks is submitting a first part and then,
    from the pool as that left it, the rest: pairs and calls are
    concatenated.  So the handle paired with a task does not depend on the
    tasks after it. *)
Theorem submit_all_app (pool : Pool) (tasks1 tasks2 : list ExperimentTask) :
  submit_all pool (tasks1 ++ tasks2)
  = ((submit_all pool tasks1).1.1
       ++ (submit_all (submit_all pool tasks1).1.2 tasks2).1.1,
     (submit_all (submit_all pool tasks1).1.2 tasks2).1.2,
     (submit_all pool tasks1).2
       ++ (submit_all (submit_all pool tasks1).1.2 tasks2).2)
  ∧ (submit_all pool tasks1).1.1
    `prefix_of` (submit_all pool (tasks1 ++ tasks2)).1.1.
Proof.
  assert (Happ : submit_all pool (tasks1 ++ tasks2)
    = ((submit_all pool tasks1).1.1
         ++ (submit_all (submit_all pool tasks1).1.2 tasks2).1.1,
       (submit_all (submit_all pool tasks1).1.2 tasks2).1.2,
       (submit_all pool tasks1).2
         ++ (submit_all (submit_all pool tasks1).1.2 tasks2).2)).
  { revert pool. induction tasks1 as [|exp_task rest IH]; intros pool; simpl.
    - by destruct (submit_all pool tasks2) as [[? ?] ?].
    - destruct (evaluate_remote pool exp_task) as [future pool1].
      rewrite (IH pool1).
      by destruct (submit_all pool1 rest) as [[? ?] ?]. }
  split; [done |]. rewrite Happ. simpl. by apply prefix_app_r.
Qed.

(** X7: [main] on a batch whose tasks all finish: after the one record of
    [create_tasks] it logs one completion per submitted handle, each handle
    once, every record with the number of tasks as total, and ends
    normally. *)
Theorem main_logs_whole_batch
    (Hrand : randbelow_in_range) (Hpart : wait_partitions)
    (Hsome : wait_returns_finished)
    (fuel : nat) (envs_path config_path : string) (num_runs : nat)
    (num_episodes : Z) (output_dir task_prefix : string)
    (log_episode_frequency : Z) (w : World) :
  ∃ created,
    create_tasks envs_path config_path num_runs num_episodes output_dir
      task_prefix log_episode_frequency w = inr created
    ∧ (length (tasks_futures created) < fuel →
       all_finish (tasks_futures created).*2 →
       ∃ records,
         main fuel envs_path config_path num_runs num_episodes output_dir
           task_prefix log_episode_frequency w
         = (Parsed (length (parse_experiment_configs config_path))
              (length (parse_environments envs_path))
              (length (tasks_futures created)) :: records, Done)
         ∧ length records = length (tasks_futures created)
         ∧ notified_handles records ≡ₚ (tasks_futures created).*2
         ∧ Forall (well_formed_record (tasks_futures created).*2
                     (length (tasks_futures created))) records).
Proof.
  destruct (create_tasks_spec Hrand envs_path config_path num_runs
              num_episodes output_dir task_prefix log_episode_frequency w)
    as (created & eac & Hrun & _ & _ & _ & _ & _ & _ & _ & Hlog).
  exists created. split; [done |]. intros Hfuel Hfinish.
  unfold main. rewrite Hrun, Hlog.
  assert (Hlen : length (tasks_futures created).*2 = length (tasks_futures created))
    by apply length_fmap.
  destruct (wait_loop_spec Hpart Hsome fuel (w_pool (created_world created))
              (tasks_futures created).*2 (length (tasks_futures created).*2))
    as (records & Hloop & Hrlen & Hnot & _); [lia | done |].
  pose proof (wait_loop_general Hpart Hsome fuel
                (w_pool (created_world created)) (tasks_futures created).*2
                (length (tasks_futures created).*2) ltac:(lia))
    as (_ & _ & Hall & _).
  rewrite Hloop in Hall |- *. simpl in Hall |- *. rewrite Hlen in *.
  exists records. by split_and!.
Qed.

End job_more_claims.

Lemma main_logs_whole_batch_witness :
  ∃ created,
    example.batch = inr created
    ∧ (length (tasks_futures created) < 25 →
       @all_finish string unit nat example.one_by_one (tasks_futures created).*2 →
       ∃ records,
         @main string _ _ nat _ _ unit string nat example.collaborators
           example.one_by_one example.tape 25 "envs.json" "configs.csv" 4 100
           "out" "run" 10 example.world
         = (Parsed 3 2 (length (tasks_futures created)) :: records, Done)
         ∧ length records = length (tasks_futures created)
         ∧ notified_handles records ≡ₚ (tasks_futures created).*2
         ∧ Forall (well_formed_record (tasks_futures created).*2
                     (length (tasks_futures created))) records).
Proof.
  exact (@main_logs_whole_batch string _ _ nat _ _ unit string nat
           example.collaborators example.one_by_one example.tape
           tape_in_range one_by_one_partitions one_by_one_returns_finished
           25 "envs.json" "configs.csv" 4 100%Z "out" "run" 10%Z example.world).
Defined.


(** ** The remote function *)

Lemma append_nil_l (s : string) : "" +:+ s = s.
Proof. reflexivity. Qed.

Lemma append_cons (a : ascii) (s1 s2 : string) :
  String a s1 +:+ s2 = String a (s1 +:+ s2).
Proof. reflexivity. Qed.

Lemma no_slash_app_slash (s1 s2 : string) : ¬ no_slash (s1 +:+ String "/" s2).
Proof.
  induction s1 as [|a s1 IH].
  - rewrite append_nil_l. by intros [? _].
  - rewrite append_cons. by intros [_ ?].
Qed.

Lemma before_last_slash_inj (s1 s2 d1 d2 : string) :
  no_slash d1 → no_slash d2 →
  s1 +:+ "/" +:+ d1 = s2 +:+ "/" +:+ d2 → s1 = s2 ∧ d1 = d2.
Proof.
  intros Hd1 Hd2. revert s2.
  induction s1 as [|a1 s1 IH]; intros [|a2 s2];
    rewrite ?append_nil_l, ?append_cons, ?append_nil_l; intros Heq.
  - by simplify_eq.
  - injection Heq as Ha Hd. subst. by apply no_slash_app_slash in Hd1.
  - injection Heq as Ha Hd. subst. by apply no_slash_app_slash in Hd2.
  - injection Heq as Ha Heq. subst.
    destruct (IH s2) as [-> ->]; [| done].
    by rewrite append_cons, append_nil_l.
Qed.

Lemma pretty_N_go_no_slash (x : N) (s : string) :
  no_slash s → no_slash (pretty_N_go x s).
Proof.
  revert s. induction (N.lt_wf_0 x) as [x _ IH]; intros s Hs.
  assert (x = 0 ∨ 0 < x)%N as [-> | Hpos] by lia.
  - by rewrite pretty_N_go_0.
  - rewrite pretty_N_go_step by done. apply IH.
    { by apply N.div_lt. }
    simpl. split; [| done].
    unfold pretty_N_char. by repeat case_match.
Qed.

Lemma pretty_nat_no_slash (n : nat) : no_slash (pretty n).
Proof.
  unfold pretty, pretty_nat, pretty, pretty_N.
  case_decide; [by split | by apply pretty_N_go_no_slash].
Qed.

Section evaluate_claims.
Context {float EnvArgs DaafConfig : Type}.
Variable format_exp_id : string * nat → string.
Variable run_fn : @evaljob.ExperimentTask float EnvArgs DaafConfig → exn + unit.

(** X9: the id that [evaluate] returns tells the run apart: two tasks for
    which it returns the same id have the same printed experiment id and
    the same run id, whatever characters the experiment id contains.  When
    [run_fn] raises, [evaluate] returns that error and logs the start but
    no finish. *)
Theorem evaluate_id_identifies_run :
  (∀ task1 task2 id,
     (evaluate format_exp_id run_fn task1).2 = inr id →
     (evaluate format_exp_id run_fn task2).2 = inr id →
     format_exp_id (exp_id task1) = format_exp_id (exp_id task2)
     ∧ run_id task1 = run_id task2)
  ∧ (∀ task e,
       run_fn task = inl e →
       evaluate format_exp_id run_fn task
       = ([Starting (task_id format_exp_id task)], inl e))
  ∧ (∀ task,
       (∃ id, (evaluate format_exp_id run_fn task).2 = inr id)
       ↔ run_fn task = inr tt).
Proof.
  split_and!.
  - intros task1 task2 id. unfold evaluate.
    destruct (run_fn task1); [done |]. destruct (run_fn task2); [done |].
    simpl. intros [= <-] [= Heq]. unfold task_id in Heq. symmetry in Heq.
    apply before_last_slash_inj in Heq as [Hexp Hrun];
      [| apply pretty_nat_no_slash ..].
    split; [done |]. by apply (inj pretty).
  - intros task e Hrun. unfold evaluate. by rewrite Hrun.
  - intros task. unfold evaluate.
    destruct (run_fn task) as [e | []]; simpl; split.
    + by intros [? [=]].
    + done.
    + done.
    + intros _. by eexists.
Qed.
End evaluate_claims.

Lemma evaluate_id_identifies_run_witness : "run-3" = "run-3" ∧ 7 = 7.
Proof.
  exact (proj1 (@evaluate_id_identifies_run string unit nat
                  (λ id, id.1 +:+ "-" +:+ pretty id.2) (λ _, inr tt))
           (mkExperimentTask ("run", 3) 7
              (mkExperiment (mkEnvConfig "envA" tt) (mkLearningArgs "0.9") 1)
              (mkRunConfig 100 10 "out") ∅)
           (mkExperimentTask ("run", 3) 7
              (mkExperiment (mkEnvConfig "envB" tt) (mkLearningArgs "0.99") 2)
              (mkRunConfig 100 10 "out") ∅)
           "run-3/7" eq_refl eq_refl).
Defined.

Example evaluate_returns_the_id :
  @evaluate string unit nat (λ id, id.1 +:+ "-" +:+ pretty id.2) (λ _, inr tt)
    (mkExperimentTask ("run", 3) 7
       (mkExperiment (mkEnvConfig "envA" tt) (mkLearningArgs "0.9") 1)
       (mkRunConfig 100 10 "out") ∅)
  = ([Starting "run-3/7"; Finished "run-3/7"], inr "run-3/7").
Proof. vm_compute. reflexivity. Qed.
